(** * render_album.py: a shallow embedding and its verified properties

    The program is a command-line script that drives an external encoder
    ([ffmpeg]) in three stages: every WAV is transcoded to a numbered FLAC
    in a scratch directory and listed in a manifest, the FLACs are
    concatenated, and the result is rendered with a cover image.

    The embedding keeps the script's shape: [pathlib] paths are records,
    the interpreter's effects (file system, spawned processes, the two
    output streams) live in an explicit [World], and every function of the
    script is a computation in a state-and-exception monad.  What the
    operating system and [ffmpeg] decide (home directory and symlinks,
    directory listings, names of temporary directories, what the encoder
    prints, returns and writes) is a [Host] of oracles over which all
    theorems quantify.  [main] is embedded from the parsed arguments on:
    what [argparse] does with the command line is its own.  Library calls
    are taken to return; the exceptions are the ones the script raises,
    plus the one a write to a directory raises. *)

From Stdlib Require Import ZArith String Ascii List DecimalString DecimalNat
  Sorted Lia.
From stdpp Require Import gmap strings list.

(** ** Strings as Python has them *)

Module Str.

(** [s.split(sep)] for a one-character separator. *)
Fixpoint split (sep : ascii) (s : string) : list string :=
  match s with
  | EmptyString => [""]
  | String c s' =>
      if Ascii.eqb c sep then "" :: split sep s'
      else match split sep s' with
           | [] => [String c ""]
           | w :: ws => String c w :: ws
           end
  end.

(** [sep.join(l)]. *)
Definition join (sep : string) (l : list string) : string :=
  String.concat sep l.

(** [s.rfind(c)], with [None] for Python's [-1]. *)
Fixpoint rfind (c : ascii) (s : string) : option nat :=
  match s with
  | EmptyString => None
  | String a s' =>
      match rfind c s' with
      | Some i => Some (S i)
      | None => if Ascii.eqb a c then Some 0 else None
      end
  end.

(** [s[i:]]. *)
Definition drop (i : nat) (s : string) : string :=
  String.substring i (String.length s - i) s.

(** [c.lower()] on one byte: the ASCII capitals move down and every
    other byte stays.  Python also lowers letters outside ASCII; none of
    them lowers to a character of [.mp4], the one string a lowered text
    is compared with here, so leaving their bytes in place does not
    change that comparison. *)
Definition lower_ascii (c : ascii) : ascii :=
  let n := nat_of_ascii c in
  if (65 <=? n) && (n <=? 90) then ascii_of_nat (n + 32) else c.

(** [s.lower()]. *)
Fixpoint lower (s : string) : string :=
  match s with
  | EmptyString => EmptyString
  | String c s' => String (lower_ascii c) (lower s')
  end.

(** [str(n)] for a natural number. *)
Definition of_nat (n : nat) : string :=
  NilEmpty.string_of_uint (Nat.to_uint n).

(** [str(z)] for an integer. *)
Definition of_Z (z : Z) : string :=
  NilZero.string_of_int (Z.to_int z).

(** [f"{n:02d}"]: decimal, padded with zeros on the left to width two. *)
Definition pad2 (n : nat) : string :=
  let s := of_nat n in
  if String.length s <? 2 then "0" +:+ s else s.

(** [a < b] on strings: code points, that is bytes of the UTF-8 form. *)
Definition ltb (a b : string) : bool := String.ltb a b.

(** [a < b] on lists of strings, as Python compares lists. *)
Fixpoint list_ltb (l m : list string) : bool :=
  match l, m with
  | [], [] => false
  | [], _ :: _ => true
  | _ :: _, [] => false
  | a :: l', b :: m' =>
      if String.eqb a b then list_ltb l' m' else ltb a b
  end.

(** Number of occurrences of a character. *)
Fixpoint count (c : ascii) (s : string) : nat :=
  match s with
  | EmptyString => 0
  | String a s' => (if Ascii.eqb a c then 1 else 0) + count c s'
  end.

End Str.

(** ** [pathlib.PurePosixPath] *)

Record Path := MkPath {
  anchor : string;        (* "", "/" or "//" *)
  parts : list string     (* the components after the anchor *)
}.

Module PurePath.

(** Leading slashes of a string. *)
Fixpoint leading_slashes (s : string) : nat :=
  match s with
  | String "/" s' => S (leading_slashes s')
  | _ => 0
  end.

(** The root of a POSIX path: none, one slash, or exactly two. *)
Definition root_of (s : string) : string :=
  match leading_slashes s with
  | 0 => ""
  | 2 => "//"
  | _ => "/"
  end.

Definition keep_part (x : string) : bool :=
  negb (String.eqb x "") && negb (String.eqb x ".").

(** [Path(s)]: empty components and single dots are dropped. *)
Definition of_string (s : string) : Path :=
  {| anchor := root_of s;
     parts := List.filter keep_part (Str.split "/" s) |}.

(** [str(p)]. *)
Definition str (p : Path) : string :=
  match anchor p, parts p with
  | EmptyString, [] => "."
  | a, ps => a +:+ Str.join "/" ps
  end.

(** [p / s]: an absolute right operand replaces the left one. *)
Definition joinpath (p : Path) (s : string) : Path :=
  let q := of_string s in
  match anchor q with
  | EmptyString => {| anchor := anchor p; parts := parts p ++ parts q |}
  | _ => q
  end.

(** [p.name]: the final component, empty when there is none. *)
Definition name (p : Path) : string := List.last (parts p) "".

(** [p.suffix] (Python 3.4 to 3.13): the text from the last dot of the
    name, when that dot is neither its first nor its last character. *)
Definition suffix (p : Path) : string :=
  let n := name p in
  match Str.rfind "." n with
  | Some i =>
      if (0 <? i) && (i <? String.length n - 1) then Str.drop i n else ""
  | None => ""
  end.

(** The list Python compares paths by: the anchor, when there is one,
    then the components (so up to Python 3.11; later versions split the
    string form at the separator, which orders the paths of one anchor
    the same way). *)
Definition cparts (p : Path) : list string :=
  match anchor p with
  | EmptyString => parts p
  | a => a :: parts p
  end.

(** [p < q]. *)
Definition ltb (p q : Path) : bool := Str.list_ltb (cparts p) (cparts q).

(** [sorted(l)]: a stable sort that only asks [<], here by insertion. *)
Fixpoint insert (x : Path) (l : list Path) : list Path :=
  match l with
  | [] => [x]
  | y :: l' => if ltb y x then y :: insert x l' else x :: y :: l'
  end.

Definition sorted (l : list Path) : list Path := List.fold_right insert [] l.

End PurePath.

Notation "p // s" := (PurePath.joinpath p s) (at level 40, left associativity).

(** ** The world the script runs in *)

(** A file-system entry; keys of the file system are path strings. *)
Inductive node :=
  | File (content : string)
  | Dir.

Abbreviation FS := (gmap string node).

(** What [subprocess.run] hands back: the exit code and, with standard
    error redirected into it, the captured standard output. *)
Record CompletedProcess := MkProc {
  returncode : Z;
  stdout : string
}.

(** One spawned process: its argument vector and the file system it
    started in. *)
Record Invocation := MkInvocation {
  argv : list string;
  seen : FS
}.

Record World := MkWorld {
  fs : FS;
  spawned : list Invocation;
  sys_stdout : string;
  sys_stderr : string
}.

(** The operating system and the encoder, as far as the script sees them.
    [resolve] and [expanduser] depend on the working directory, the home
    directory and the symlinks, all fixed during a run; [glob] lists a
    directory; [mkdtemp] picks the name of the scratch directory;
    [subprocess_run] is the spawned program: it sees the file system,
    may change it at will, and completes with an exit code and output. *)
Record Host := MkHost {
  expanduser : Path -> Path;
  resolve : Path -> Path;
  glob : FS -> Path -> string -> list Path;
  mkdtemp : FS -> string;
  subprocess_run : list string -> FS -> CompletedProcess * FS
}.

(** The exceptions of a run.  [SystemExit] is the only one that is not a
    subclass of [Exception]. *)
Inductive exn :=
  | RuntimeError (msg : string)
  | FileNotFoundError (msg : string)
  | IsADirectoryError (filename : string)
  | SystemExit (code : string).

Definition is_Exception (e : exn) : bool :=
  match e with
  | SystemExit _ => false
  | _ => true
  end.

(** [str(exc)]. *)
Definition exn_str (e : exn) : string :=
  match e with
  | RuntimeError msg => msg
  | FileNotFoundError msg => msg
  | IsADirectoryError f => "[Errno 21] Is a directory: '" +:+ f +:+ "'"
  | SystemExit code => code
  end.

Definition nl : string := String (ascii_of_nat 10) EmptyString.

(** ** The monad of the script: state and exceptions *)

Definition Py (A : Type) : Type := World -> (exn + A) * World.

Definition ret {A} (a : A) : Py A := fun w => (inr a, w).

Definition raise {A} (e : exn) : Py A := fun w => (inl e, w).

Definition bind {A B} (m : Py A) (k : A -> Py B) : Py B :=
  fun w =>
    match m w with
    | (inl e, w') => (inl e, w')
    | (inr a, w') => k a w'
    end.

Notation "'let*' x ':=' e 'in' k" := (bind e (fun x => k))
  (at level 10, x pattern, e at level 100, k at level 200).

Definition gets {A} (f : World -> A) : Py A := fun w => (inr (f w), w).

Definition set_fs (m : FS) (w : World) : World :=
  {| fs := m; spawned := spawned w;
     sys_stdout := sys_stdout w; sys_stderr := sys_stderr w |}.

(** [print(s)]. *)
Definition print (s : string) : Py unit :=
  fun w =>
    (inr tt,
     {| fs := fs w; spawned := spawned w;
        sys_stdout := sys_stdout w +:+ s +:+ nl;
        sys_stderr := sys_stderr w |}).

(** [print(s, file=sys.stderr)], as a plain state change: it is used
    after the last exception has been caught. *)
Definition eprint (s : string) (w : World) : World :=
  {| fs := fs w; spawned := spawned w;
     sys_stdout := sys_stdout w;
     sys_stderr := sys_stderr w +:+ s +:+ nl |}.

(** ** File-system operations *)

(** [path.exists()]. *)
Definition path_exists (m : FS) (p : Path) : bool :=
  match m !! PurePath.str p with
  | Some _ => true
  | None => false
  end.

(** [path.is_file()]. *)
Definition is_file (m : FS) (p : Path) : bool :=
  match m !! PurePath.str p with
  | Some (File _) => true
  | _ => false
  end.

(** [path.write_text(s)]: create or truncate, then write. *)
Definition write_text (p : Path) (s : string) : Py unit :=
  fun w =>
    let k := PurePath.str p in
    match fs w !! k with
    | Some Dir => (inl (IsADirectoryError k), w)
    | _ => (inr tt, set_fs (<[k := File s]> (fs w)) w)
    end.

(** [with path.open("a") as f: f.write(s)]: create if missing, then
    write at the end. *)
Definition append_text (p : Path) (s : string) : Py unit :=
  fun w =>
    let k := PurePath.str p in
    match fs w !! k with
    | Some Dir => (inl (IsADirectoryError k), w)
    | Some (File c) => (inr tt, set_fs (<[k := File (c +:+ s)]> (fs w)) w)
    | None => (inr tt, set_fs (<[k := File s]> (fs w)) w)
    end.

(** A key lies in directory [d] when it is [d] or starts with [d/]. *)
Definition in_dir (d k : string) : bool :=
  String.eqb d k || String.prefix (d +:+ "/") k.

(** [shutil.rmtree(d)]. *)
Definition rmtree (d : string) (m : FS) : FS :=
  filter (fun kv => in_dir d kv.1 = false) m.

(** ** The script *)

(** The result of [parser.parse_args()]. *)
Record Namespace := MkArgs {
  input : string;
  cover : string;
  pattern : string;
  output : string
}.

Definition FRAMERATE : nat := 30.

Section Script.

Variable host : Host.

(** [run(cmd)]: spawn, wait, raise on a non-zero exit code, return the
    captured output. *)
Definition run (cmd : list string) : Py string :=
  fun w =>
    let '(proc, m) := subprocess_run host cmd (fs w) in
    let w' :=
      {| fs := m;
         spawned := spawned w ++ [{| argv := cmd; seen := fs w |}];
         sys_stdout := sys_stdout w;
         sys_stderr := sys_stderr w |} in
    if negb (returncode proc =? 0)%Z then
      (inl (RuntimeError
              ("Command failed (" +:+ Str.of_Z (returncode proc) +:+ "): "
               +:+ Str.join " " cmd +:+ nl +:+ stdout proc)),
       w')
    else (inr (stdout proc), w').

Definition ensure_exists (path : Path) (kind : string) : Py unit :=
  let* present := gets (fun w => path_exists (fs w) path) in
  if negb present then
    raise (FileNotFoundError
             ("Missing " +:+ kind +:+ ": " +:+ PurePath.str path))
  else ret tt.

(** The argument vector of one transcode. *)
Definition transcode_cmd (wav flac_out : Path) : list string :=
  [ "ffmpeg"; "-y"; "-i"; PurePath.str wav;
    "-c:a"; "flac"; "-sample_fmt"; "s32"; "-ar"; "48000";
    PurePath.str flac_out ].

(** The line the manifest gets for one intermediate. *)
Definition manifest_line (flac_out : Path) : string :=
  "file '" +:+ PurePath.str flac_out +:+ "'" +:+ nl.

(** The body of [for idx, wav in enumerate(wavs, start=1)], with the
    loop state: the next index and the paths collected so far. *)
Fixpoint transcode_loop (workdir list_path : Path) (idx : nat)
    (wavs : list Path) (flac_paths : list Path) : Py (list Path) :=
  match wavs with
  | [] => ret flac_paths
  | wav :: rest =>
      let flac_out := workdir // (Str.pad2 idx +:+ ".flac") in
      let* _ := run (transcode_cmd wav flac_out) in
      let flac_paths := flac_paths ++ [flac_out] in
      let* _ := append_text list_path (manifest_line flac_out) in
      transcode_loop workdir list_path (S idx) rest flac_paths
  end.

Definition transcode_wavs_to_flacs (wavs : list Path) (workdir : Path)
    : Py (list Path * Path) :=
  let flac_paths := [] in
  let list_path := workdir // "flac_list.txt" in
  let* _ := write_text list_path "" in
  let* flac_paths := transcode_loop workdir list_path 1 wavs flac_paths in
  ret (flac_paths, list_path).

Definition concat_cmd (list_path out_flac : Path) : list string :=
  [ "ffmpeg"; "-y"; "-f"; "concat"; "-safe"; "0";
    "-i"; PurePath.str list_path;
    "-c:a"; "flac"; "-sample_fmt"; "s32"; "-ar"; "48000";
    PurePath.str out_flac ].

Definition concat_flacs (list_path out_flac : Path) : Py unit :=
  let* _ := run (concat_cmd list_path out_flac) in
  ret tt.

(** The audio options of the render, chosen by the output's suffix. *)
Definition audio_codec (output : Path) : list string :=
  let ext := Str.lower (PurePath.suffix output) in
  if String.eqb ext ".mp4" then ["-c:a"; "aac"; "-b:a"; "320k"]
  else ["-c:a"; "copy"].

Definition render_cmd (cover audio output : Path) : list string :=
  [ "ffmpeg"; "-y"; "-loop"; "1";
    "-framerate"; Str.of_nat FRAMERATE;
    "-i"; PurePath.str cover;
    "-i"; PurePath.str audio;
    "-c:v"; "h264_nvenc"; "-preset"; "p7"; "-rc"; "vbr_hq";
    "-cq"; "17"; "-b:v"; "8M"; "-maxrate"; "12M"; "-bufsize"; "24M";
    "-profile:v"; "high"; "-pix_fmt"; "yuv420p";
    "-r"; Str.of_nat FRAMERATE ]
  ++ audio_codec output
  ++ [ "-shortest"; "-movflags"; "+faststart"; PurePath.str output ].

Definition render_video (cover audio output : Path) : Py unit :=
  let* _ := run (render_cmd cover audio output) in
  ret tt.

(** [with tempfile.TemporaryDirectory() as tmpdir: body]: the directory
    is made, the body runs, and the directory goes with all it holds,
    whether the body returned or raised. *)
Definition TemporaryDirectory {A} (body : string -> Py A) : Py A :=
  fun w =>
    let tmpdir := mkdtemp host (fs w) in
    let '(r, w') := body tmpdir (set_fs (<[tmpdir := Dir]> (fs w)) w) in
    (r, set_fs (rmtree tmpdir (fs w')) w').

(** [root], [cover] and [wavs] as [main] computes them. *)
Definition root_of_args (args : Namespace) : Path :=
  resolve host (expanduser host (PurePath.of_string (input args))).

Definition cover_of_args (args : Namespace) : Path :=
  resolve host (root_of_args args // cover args).

Definition output_of_args (args : Namespace) : Path :=
  resolve host (root_of_args args // output args).

Definition wavs_of_args (args : Namespace) (m : FS) : list Path :=
  let wavs := PurePath.sorted (glob host m (root_of_args args) (pattern args)) in
  List.filter (is_file m) wavs.

Definition main (args : Namespace) : Py unit :=
  let root := root_of_args args in
  let* _ := ensure_exists root "input directory" in
  let cover := cover_of_args args in
  let* _ := ensure_exists cover "cover image" in
  let* wavs := gets (fun w => wavs_of_args args (fs w)) in
  match wavs with
  | [] => raise (SystemExit "No WAV files found.")
  | _ :: _ =>
      let* _ := print ("Found " +:+ Str.of_nat (length wavs)
                       +:+ " WAV files. Concatenating audio...") in
      let* output_video :=
        TemporaryDirectory (fun tmpdir =>
          let workdir := PurePath.of_string tmpdir in
          let* (flacs, listfile) := transcode_wavs_to_flacs wavs workdir in
          let concat_flac := workdir // "album_concat.flac" in
          let* _ := concat_flacs listfile concat_flac in
          let output_video := output_of_args args in
          let* _ := print ("Rendering final video -> "
                           +:+ PurePath.name output_video) in
          let* _ := render_video cover concat_flac output_video in
          ret output_video) in
      let* _ := print "Done." in
      print ("Output video: " +:+ PurePath.str output_video)
  end.

(** The [if __name__ == "__main__"] block, with what the interpreter
    does with a [SystemExit] that carries a string: the string goes to
    standard error and the exit code is 1.  The result is the exit code
    and the final world. *)
Definition main_guard (args : Namespace) (w : World) : Z * World :=
  match main args w with
  | (inr _, w') => (0%Z, w')
  | (inl e, w') =>
      if is_Exception e then (1%Z, eprint ("Error: " +:+ exn_str e) w')
      else (1%Z, eprint (exn_str e) w')
  end.

End Script.

(** ** Vocabulary of the statements *)

(** The numbered intermediate of position [idx]. *)
Definition intermediate (workdir : Path) (idx : nat) : Path :=
  workdir // (Str.pad2 idx +:+ ".flac").

(** The intermediates of [n] consecutive positions from [start]. *)
Definition intermediates (workdir : Path) (start n : nat) : list Path :=
  List.map (intermediate workdir) (seq start n).

(** A manifest holding one line for each of the given paths, in order. *)
Definition manifest_text (paths : list Path) : string :=
  String.concat "" (List.map manifest_line paths).

(** The destination of an encoder invocation: its final argument. *)
Definition destination (cmd : list string) : option string := last cmd.

(** An invocation overwrites without asking when [-y] follows the
    program name. *)
Definition overwrites (cmd : list string) : Prop :=
  exists rest, cmd = "ffmpeg" :: "-y" :: rest.

(** The transcodes of a list of sources, numbered from [idx]. *)
Fixpoint transcode_cmds (workdir : Path) (idx : nat) (wavs : list Path)
    : list (list string) :=
  match wavs with
  | [] => []
  | wav :: rest =>
      transcode_cmd wav (intermediate workdir idx)
      :: transcode_cmds workdir (S idx) rest
  end.

(** All the invocations of a run that passes validation, in order. *)
Definition pipeline_cmds (host : Host) (args : Namespace) (m : FS)
    : list (list string) :=
  let workdir := PurePath.of_string (mkdtemp host m) in
  transcode_cmds workdir 1 (wavs_of_args host args m)
  ++ [ concat_cmd (workdir // "flac_list.txt") (workdir // "album_concat.flac");
       render_cmd (cover_of_args host args) (workdir // "album_concat.flac")
                  (output_of_args host args) ].

(** The body of the [with] block of [main], for the sources [wavs]. *)
Definition scratch_body (host : Host) (args : Namespace) (wavs : list Path)
    (tmpdir : string) : Py Path :=
  let workdir := PurePath.of_string tmpdir in
  let* (flacs, listfile) := transcode_wavs_to_flacs host wavs workdir in
  let concat_flac := workdir // "album_concat.flac" in
  let* _ := concat_flacs host listfile concat_flac in
  let output_video := output_of_args host args in
  let* _ := print ("Rendering final video -> "
                   +:+ PurePath.name output_video) in
  let* _ := render_video host (cover_of_args host args) concat_flac
              output_video in
  ret output_video.

(** What [main] does once validation has passed with sources [wavs]. *)
Definition after_validation (host : Host) (args : Namespace)
    (wavs : list Path) : Py unit :=
  let* _ := print ("Found " +:+ Str.of_nat (length wavs)
                   +:+ " WAV files. Concatenating audio...") in
  let* output_video :=
    TemporaryDirectory host (scratch_body host args wavs) in
  let* _ := print "Done." in
  print ("Output video: " +:+ PurePath.str output_video).

(** [p <= q] for paths: [q < p] does not hold. *)
Definition path_le (p q : Path) : Prop := PurePath.ltb q p = false.

(** The encoder leaves the entry at key [k] alone. *)
Definition encoder_keeps (host : Host) (k : string) : Prop :=
  forall cmd m, (subprocess_run host cmd m).2 !! k = m !! k.

(** The invocation [inv] ended with a non-zero exit code, and [e] is the
    error [run] raises for it. *)
Definition command_failed (host : Host) (inv : Invocation) (e : exn)
    : Prop :=
  let proc := (subprocess_run host (argv inv) (seen inv)).1 in
  returncode proc <> 0%Z /\
  e = RuntimeError
        ("Command failed (" +:+ Str.of_Z (returncode proc) +:+ "): "
         +:+ Str.join " " (argv inv) +:+ nl +:+ stdout proc).

(** A computation that leaves standard error alone and raises nothing
    but subclasses of [Exception]. *)
Definition quiet {A} (m : Py A) : Prop :=
  forall w,
    sys_stderr (m w).2 = sys_stderr w /\
    (forall e, (m w).1 = inl e -> is_Exception e = true).

(** The fixed options of the render, before and after the audio ones. *)
Definition video_options (cover audio : Path) : list string :=
  [ "ffmpeg"; "-y"; "-loop"; "1"; "-framerate"; "30";
    "-i"; PurePath.str cover; "-i"; PurePath.str audio;
    "-c:v"; "h264_nvenc"; "-preset"; "p7"; "-rc"; "vbr_hq";
    "-cq"; "17"; "-b:v"; "8M"; "-maxrate"; "12M"; "-bufsize"; "24M";
    "-profile:v"; "high"; "-pix_fmt"; "yuv420p"; "-r"; "30" ].

Definition closing_options (output : Path) : list string :=
  [ "-shortest"; "-movflags"; "+faststart"; PurePath.str output ].

(** The letter-case variants of [.mp4]. *)
Definition mp4_suffixes : list string := [".mp4"; ".mP4"; ".Mp4"; ".MP4"].

(** The invocation [inv] ended with exit code zero. *)
Definition exited_ok (host : Host) (inv : Invocation) : Prop :=
  returncode (subprocess_run host (argv inv) (seen inv)).1 = 0%Z.

(** An encoder that writes nothing but its destination: every entry of
    the file system other than the final argument stays as it was. *)
Definition writes_only_destination (host : Host) : Prop :=
  forall cmd m k,
    destination cmd <> Some k ->
    (subprocess_run host cmd m).2 !! k = m !! k.

(** A directory name in the form [pathlib] prints it, with at least one
    component: what [mkdtemp] returns. *)
Definition normal_dir (d : string) : Prop :=
  PurePath.str (PurePath.of_string d) = d /\
  parts (PurePath.of_string d) <> [].

(** The key of the manifest in the scratch directory [tmpdir]. *)
Definition manifest_key (tmpdir : string) : string :=
  PurePath.str (PurePath.of_string tmpdir // "flac_list.txt").

(** The two progress lines of [main]. *)
Definition found_line (wavs : list Path) : string :=
  "Found " +:+ Str.of_nat (length wavs)
  +:+ " WAV files. Concatenating audio...".

Definition rendering_line (output : Path) : string :=
  "Rendering final video -> " +:+ PurePath.name output.

(** [f"{n:02d}"] read back: the number a string of digits stands for. *)
Definition read_nat (s : string) : option nat :=
  match NilEmpty.uint_of_string s with
  | Some d => Some (Nat.of_uint d)
  | None => None
  end.

(** The process [inv] left the entry at key [k] as it found it. *)
Definition kept (host : Host) (k : string) (inv : Invocation) : Prop :=
  (subprocess_run host (argv inv) (seen inv)).2 !! k = seen inv !! k.

(** The exception a computation ended with, if any. *)
Definition raised {A} (r : exn + A) : option exn :=
  match r with
  | inl e => Some e
  | inr _ => None
  end.

(** The processes [new] ran one after the other until the first that
    failed: when the error [e] is a [RuntimeError], the last of them
    failed with it and the ones before exited with zero; otherwise all of
    them exited with zero. *)
Definition fail_fast (host : Host) (new : list Invocation)
    (e : option exn) : Prop :=
  match e with
  | Some (RuntimeError msg) =>
      exists init inv,
        new = init ++ [inv] /\
        Forall (exited_ok host) init /\
        command_failed host inv (RuntimeError msg)
  | _ => Forall (exited_ok host) new
  end.

(** A concrete encoder that writes its destination and nothing else. *)
Definition destination_writer (bad : string) (rc : Z)
    (cmd : list string) (m : FS) : CompletedProcess * FS :=
  if existsb (String.eqb bad) cmd then (MkProc rc "boom", m)
  else match destination cmd with
       | Some d => (MkProc 0 "", <[d := File "media"]> m)
       | None => (MkProc 0 "", m)
       end.

(** ** Proof steps that recur *)

(** A computation that stopped before spawning anything. *)
Ltac spawns_nothing :=
  intros [= <- <-]; exists []; rewrite app_nil_r;
  split; [done|]; split; [apply prefix_nil|done].

(** A computation that raised an exception of [Exception] at once. *)
Ltac raises_at_once :=
  intros [= <- <-]; split; [done|]; by intros ? [= <-].

(** ** A concrete host and album *)

Module Sample.

(** A host with a stub encoder: it leaves the file system alone and
    fails, with exit code [rc] and output [boom], exactly on the
    commands that have [bad] among their arguments (no command of the
    script has an empty argument, so the empty [bad] never fails).
    Paths resolve to themselves, the directory listing is [found] and
    the scratch directory is [/tmp/tmpx]. *)
Definition stub (found : list string) (bad : string) (rc : Z) : Host :=
  {| expanduser := fun p => p;
     resolve := fun p => p;
     glob := fun _ root _ => List.map (PurePath.joinpath root) found;
     mkdtemp := fun _ => "/tmp/tmpx";
     subprocess_run := fun cmd m =>
       (if existsb (String.eqb bad) cmd then MkProc rc "boom"
        else MkProc 0 "", m) |}.

(** A host whose encoder writes its destination: on the commands
    that do not mention [bad] it stores a file at the final argument
    and exits with 0. *)
Definition writer (found : list string) (bad : string) (rc : Z) : Host :=
  {| expanduser := fun p => p;
     resolve := fun p => p;
     glob := fun _ root _ => List.map (PurePath.joinpath root) found;
     mkdtemp := fun _ => "/tmp/tmpx";
     subprocess_run := fun cmd m =>
       if existsb (String.eqb bad) cmd then (MkProc rc "boom", m)
       else (MkProc 0 "", <[List.last cmd "" := File "media"]> m) |}.

(** A host whose encoder is [destination_writer]. *)
Definition encoder (found : list string) (bad : string) (rc : Z) : Host :=
  {| expanduser := fun p => p;
     resolve := fun p => p;
     glob := fun _ root _ => List.map (PurePath.joinpath root) found;
     mkdtemp := fun _ => "/tmp/tmpx";
     subprocess_run := destination_writer bad rc |}.

(** An album directory with a cover and two tracks, listed out of
    order together with a directory that matches the pattern. *)
Definition album : FS :=
  list_to_map
    [ ("/album", Dir); ("/album/cover.png", File "png");
      ("/album/a.wav", File "A"); ("/album/b.wav", File "B");
      ("/album/sub.wav", Dir) ].

Definition listing : list string := ["b.wav"; "sub.wav"; "a.wav"].

Definition world : World :=
  {| fs := album; spawned := []; sys_stdout := ""; sys_stderr := "" |}.


Definition args : Namespace :=
  {| input := "/album"; cover := "cover.png";
     pattern := "*.wav"; output := "FULL-GPU.mp4" |}.

Definition workdir : Path := PurePath.of_string "/tmp/tmpx".

Definition tracks : list Path :=
  [PurePath.of_string "/album/a.wav"; PurePath.of_string "/album/b.wav"].

End Sample.

(** ** Order on strings and paths *)

Section Order.

Lemma string_compare_refl (s : string) : String.compare s s = Eq.
Proof.
  induction s as [|a s IH]; simpl; [done|].
  unfold Ascii.compare. by rewrite N.compare_refl.
Qed.

Lemma string_ltb_lt (a b : string) :
  Str.ltb a b = true <-> String.compare a b = Lt.
Proof.
  unfold Str.ltb, String.ltb. by destruct (String.compare a b).
Qed.

Lemma string_ltb_irrefl (a : string) : Str.ltb a a = false.
Proof. unfold Str.ltb, String.ltb. by rewrite string_compare_refl. Qed.

Lemma string_ltb_leb (a b : string) :
  Str.ltb a b = true <-> String.leb a b = true /\ a <> b.
Proof.
  unfold Str.ltb, String.ltb, String.leb.
  destruct (String.compare a b) eqn:E; split; try done.
  - intros [_ H]. by apply String.compare_eq_iff in E.
  - intros _. split; [done|]. intros ->.
    by rewrite string_compare_refl in E.
  - by intros [? _].
Qed.

Lemma string_ltb_trans (a b c : string) :
  Str.ltb a b = true -> Str.ltb b c = true -> Str.ltb a c = true.
Proof.
  rewrite !string_ltb_leb. intros [Hab Nab] [Hbc Nbc]. split.
  - apply Is_true_true. apply Is_true_true in Hab, Hbc.
    exact (transitivity (R := String.le) Hab Hbc).
  - intros ->. apply Nab. by apply String.leb_antisym.
Qed.

Lemma string_ltb_total (a b : string) :
  a <> b -> Str.ltb a b = true \/ Str.ltb b a = true.
Proof.
  intros N. rewrite !string_ltb_leb.
  destruct (String.leb_total a b); [left|right]; split; congruence.
Qed.

Lemma list_ltb_irrefl (l : list string) : Str.list_ltb l l = false.
Proof.
  induction l as [|a l IH]; simpl; [done|]. by rewrite String.eqb_refl.
Qed.

Lemma list_ltb_trans (l m n : list string) :
  Str.list_ltb l m = true -> Str.list_ltb m n = true ->
  Str.list_ltb l n = true.
Proof.
  revert m n. induction l as [|a l IH]; intros [|b m] [|c n]; simpl; try done.
  destruct (String.eqb_spec a b) as [Eab|Nab],
           (String.eqb_spec b c) as [Ebc|Nbc],
           (String.eqb_spec a c) as [Eac|Nac];
    intros Hab Hbc; subst; try done; try (by eapply IH);
    try (by eapply string_ltb_trans).
  pose proof (string_ltb_trans _ _ _ Hab Hbc) as H.
  by rewrite string_ltb_irrefl in H.
Qed.

Lemma list_ltb_total (l m : list string) :
  l <> m -> Str.list_ltb l m = true \/ Str.list_ltb m l = true.
Proof.
  revert m. induction l as [|a l IH]; intros [|b m] N; simpl; auto; try done.
  destruct (String.eqb_spec a b) as [->|Nab].
  - rewrite String.eqb_refl. apply IH. congruence.
  - rewrite (proj2 (String.eqb_neq b a)) by congruence.
    by apply string_ltb_total.
Qed.

(** "Not greater" is a total preorder on paths. *)
Lemma path_le_refl (p : Path) : path_le p p.
Proof. apply list_ltb_irrefl. Qed.

Lemma path_le_trans (p q r : Path) :
  path_le p q -> path_le q r -> path_le p r.
Proof.
  unfold path_le, PurePath.ltb. intros Hpq Hqr.
  destruct (Str.list_ltb (PurePath.cparts r) (PurePath.cparts p)) eqn:Hrp;
    [|done].
  destruct (decide (PurePath.cparts q = PurePath.cparts p)) as [E|N].
  - rewrite E in Hqr. congruence.
  - destruct (list_ltb_total _ _ N) as [H|H]; [congruence|].
    pose proof (list_ltb_trans _ _ _ Hrp H). congruence.
Qed.

Lemma path_le_total (p q : Path) : path_le p q \/ path_le q p.
Proof.
  unfold path_le, PurePath.ltb.
  destruct (Str.list_ltb (PurePath.cparts q) (PurePath.cparts p)) eqn:Hqp;
    [right|by left].
  destruct (Str.list_ltb (PurePath.cparts p) (PurePath.cparts q)) eqn:Hpq;
    [|done].
  pose proof (list_ltb_trans _ _ _ Hqp Hpq) as H.
  by rewrite list_ltb_irrefl in H.
Qed.

(** Paths compare by their components, not by their string form: of
    two sources in the directories [a] and [a.b], the one in [a] is the
    smaller path and the greater string.  For the files of one directory
    the two orders agree: both compare the names. *)
Remark path_order_by_components :
  let p := PurePath.of_string "/album/a/x.wav" in
  let q := PurePath.of_string "/album/a.b/x.wav" in
  PurePath.ltb p q = true /\
  Str.ltb (PurePath.str p) (PurePath.str q) = false.
Proof. by vm_compute. Qed.

(** [sorted] sorts: its result is a rearrangement of its argument in
    which no element is greater than a later one. *)
Lemma insert_Permutation (x : Path) (l : list Path) :
  PurePath.insert x l ≡ₚ x :: l.
Proof.
  induction l as [|y l IH]; simpl; [done|].
  destruct (PurePath.ltb y x); [|done].
  rewrite IH. apply Permutation_swap.
Qed.

Lemma sorted_Permutation (l : list Path) : PurePath.sorted l ≡ₚ l.
Proof.
  induction l as [|x l IH]; simpl; [done|].
  by rewrite insert_Permutation, IH.
Qed.

Lemma insert_StronglySorted (x : Path) (l : list Path) :
  StronglySorted path_le l -> StronglySorted path_le (PurePath.insert x l).
Proof.
  induction 1 as [|y l Hl IH Hy]; simpl.
  - repeat constructor.
  - destruct (PurePath.ltb y x) eqn:Hyx.
    + constructor; [done|].
      rewrite insert_Permutation. constructor; [|done].
      destruct (path_le_total y x) as [H|H]; [done|].
      unfold path_le in H. congruence.
    + constructor; [by constructor|].
      constructor; [done|].
      eapply Forall_impl; [exact Hy|].
      intros z Hz. by eapply path_le_trans.
Qed.

Lemma sorted_StronglySorted (l : list Path) :
  StronglySorted path_le (PurePath.sorted l).
Proof.
  induction l as [|x l IH]; simpl; [constructor|].
  by apply insert_StronglySorted.
Qed.




End Order.

(** ** Strings: append and concatenation *)

Section Strings.

Lemma append_cons (a : ascii) (s t : string) :
  String a s +:+ t = String a (s +:+ t).
Proof. reflexivity. Qed.

Lemma append_nil_r (s : string) : s +:+ "" = s.
Proof. induction s as [|a s IH]; [done|]. by rewrite append_cons, IH. Qed.

Lemma append_assoc (s t u : string) : (s +:+ t) +:+ u = s +:+ (t +:+ u).
Proof.
  induction s as [|a s IH]; [done|]. by rewrite !append_cons, IH.
Qed.

Lemma concat_cons (x : string) (l : list string) :
  String.concat "" (x :: l) = x +:+ String.concat "" l.
Proof.
  destruct l as [|y l]; [|reflexivity].
  change (String.concat "" [x]) with x.
  change (String.concat "" []) with "". by rewrite append_nil_r.
Qed.




Lemma intermediates_cons (workdir : Path) (start n : nat) :
  intermediates workdir start (S n) =
  intermediate workdir start :: intermediates workdir (S start) n.
Proof. done. Qed.

Lemma manifest_text_cons (p : Path) (paths : list Path) :
  manifest_text (p :: paths) = manifest_line p +:+ manifest_text paths.
Proof.
  unfold manifest_text.
  change (List.map manifest_line (p :: paths))
    with (manifest_line p :: List.map manifest_line paths).
  by rewrite concat_cons.
Qed.

Lemma count_append (c : ascii) (s t : string) :
  Str.count c (s +:+ t) = Str.count c s + Str.count c t.
Proof.
  induction s as [|a s IH]; [done|].
  rewrite append_cons. simpl. rewrite IH. lia.
Qed.

End Strings.

(** ** Laws of the primitive computations *)

Section Laws.

Context (host : Host).

Lemma run_unfold (cmd : list string) (w : World) :
  run host cmd w =
  let proc := (subprocess_run host cmd (fs w)).1 in
  ( if (returncode proc =? 0)%Z then inr (stdout proc)
    else inl (RuntimeError
                ("Command failed (" +:+ Str.of_Z (returncode proc) +:+ "): "
                 +:+ Str.join " " cmd +:+ nl +:+ stdout proc)),
    {| fs := (subprocess_run host cmd (fs w)).2;
       spawned := spawned w ++ [{| argv := cmd; seen := fs w |}];
       sys_stdout := sys_stdout w;
       sys_stderr := sys_stderr w |} ).
Proof.
  unfold run. destruct (subprocess_run host cmd (fs w)) as [proc m]; simpl.
  by destruct (returncode proc =? 0)%Z.
Qed.

Lemma transcode_cmds_length (workdir : Path) (wavs : list Path) (idx : nat) :
  length (transcode_cmds workdir idx wavs) = length wavs.
Proof. revert idx. induction wavs; intros; simpl; auto. Qed.

Lemma transcode_cmds_lookup (workdir : Path) (wavs : list Path)
    (idx j : nat) :
  transcode_cmds workdir idx wavs !! j =
  (fun wav => transcode_cmd wav (intermediate workdir (idx + j)))
    <$> wavs !! j.
Proof.
  revert idx j. induction wavs as [|wav rest IH]; intros idx [|j]; simpl;
    try done.
  - by rewrite Nat.add_0_r.
  - rewrite IH. by rewrite Nat.add_succ_r.
Qed.

Lemma append_text_inv (p : Path) (s : string) (w : World) r w' :
  append_text p s w = (r, w') ->
  spawned w' = spawned w /\ sys_stdout w' = sys_stdout w /\
  sys_stderr w' = sys_stderr w /\
  match r with
  | inl e =>
      e = IsADirectoryError (PurePath.str p) /\ w' = w /\
      fs w !! PurePath.str p = Some Dir
  | inr _ =>
      exists c,
        fs w' = <[PurePath.str p := File (c +:+ s)]> (fs w) /\
        (fs w !! PurePath.str p = Some (File c) \/
         fs w !! PurePath.str p = None /\ c = "")
  end.
Proof.
  unfold append_text. intros H.
  destruct (fs w !! PurePath.str p) as [[c|]|] eqn:E; simplify_eq/=.
  - repeat split. exists c. eauto.
  - repeat split.
  - repeat split. exists "". eauto.
Qed.

Lemma write_text_inv (p : Path) (s : string) (w : World) r w' :
  write_text p s w = (r, w') ->
  spawned w' = spawned w /\ sys_stdout w' = sys_stdout w /\
  sys_stderr w' = sys_stderr w /\
  match r with
  | inl e =>
      e = IsADirectoryError (PurePath.str p) /\ w' = w /\
      fs w !! PurePath.str p = Some Dir
  | inr _ =>
      fs w' = <[PurePath.str p := File s]> (fs w) /\
      fs w !! PurePath.str p <> Some Dir
  end.
Proof.
  unfold write_text. intros H.
  destruct (fs w !! PurePath.str p) as [[c|]|] eqn:E; simplify_eq/=;
    repeat split; eauto.
Qed.

(** One turn of the transcode loop. *)
Lemma transcode_loop_cons (workdir list_path wav : Path)
    (rest : list Path) (idx : nat) (acc : list Path) (w : World) :
  transcode_loop host workdir list_path idx (wav :: rest) acc w =
  match run host (transcode_cmd wav (intermediate workdir idx)) w with
  | (inl e, w1) => (inl e, w1)
  | (inr _, w1) =>
      match append_text list_path
              (manifest_line (intermediate workdir idx)) w1 with
      | (inl e, w2) => (inl e, w2)
      | (inr _, w2) =>
          transcode_loop host workdir list_path (S idx) rest
            (acc ++ [intermediate workdir idx]) w2
      end
  end.
Proof.
  simpl. unfold bind, intermediate.
  destruct (run host _ w) as [[e|o] w1]; [done|].
  by destruct (append_text _ _ w1) as [[e|[]] w2].
Qed.

(** The processes a transcode loop spawns are the planned ones, in
    order and up to where it stops; it returns only after them all. *)
Lemma transcode_loop_spawned (workdir list_path : Path)
    (wavs : list Path) (idx : nat) (acc : list Path) (w : World) r w' :
  transcode_loop host workdir list_path idx wavs acc w = (r, w') ->
  exists new,
    spawned w' = spawned w ++ new /\
    argv <$> new `prefix_of` transcode_cmds workdir idx wavs /\
    forall paths,
      r = inr paths ->
      argv <$> new = transcode_cmds workdir idx wavs /\
      paths = acc ++ intermediates workdir idx (length wavs).
Proof.
  revert idx acc w. induction wavs as [|wav rest IH]; intros idx acc w H.
  - simpl in H. injection H as <- <-. exists []. rewrite !app_nil_r.
    split; [done|]. split; [done|]. by intros ? [= <-].
  - rewrite transcode_loop_cons, run_unfold in H. simpl in H.
    set (inv := {| argv := transcode_cmd wav (intermediate workdir idx);
                   seen := fs w |}) in *.
    destruct (returncode _ =? 0)%Z.
    + destruct (append_text _ _ _) as [[e|[]] w2] eqn:Ha;
        apply append_text_inv in Ha as (Hs & _ & _ & Ha); simpl in Hs.
      * injection H as <- <-. exists [inv].
        split; [done|]. split; [by apply prefix_cons, prefix_nil|done].
      * apply IH in H as (new & Hs' & Hp & Hr).
        exists (inv :: new). rewrite Hs', Hs, <- app_assoc.
        split; [done|]. split; [by apply prefix_cons|].
        intros paths Hpaths. destruct (Hr paths Hpaths) as [E ->].
        rewrite fmap_cons, E. split; [done|].
        change (length (wav :: rest)) with (S (length rest)).
        by rewrite intermediates_cons, <- app_assoc.
    + injection H as <- <-. exists [inv].
      split; [done|]. split; [by apply prefix_cons, prefix_nil|done].
Qed.

Lemma manifest_shift (c : string) (workdir : Path) (idx n : nat) :
  (c +:+ manifest_line (intermediate workdir idx))
    +:+ manifest_text (intermediates workdir (S idx) n)
  = c +:+ manifest_text (intermediates workdir idx (S n)).
Proof.
  by rewrite intermediates_cons, manifest_text_cons, append_assoc.
Qed.


(** [transcode_wavs_to_flacs], whatever the host does: the processes
    it spawns are the planned transcodes, in order and up to where it
    stops, and it returns the numbered intermediates and the manifest
    path only after them all. *)
Lemma transcode_spawned (wavs : list Path) (workdir : Path)
    (w : World) r w' :
  transcode_wavs_to_flacs host wavs workdir w = (r, w') ->
  exists new,
    spawned w' = spawned w ++ new /\
    argv <$> new `prefix_of` transcode_cmds workdir 1 wavs /\
    forall flacs listfile,
      r = inr (flacs, listfile) ->
      argv <$> new = transcode_cmds workdir 1 wavs /\
      flacs = intermediates workdir 1 (length wavs) /\
      listfile = workdir // "flac_list.txt".
Proof.
  unfold transcode_wavs_to_flacs, bind. intros H.
  destruct (write_text _ _ w) as [[e|[]] w1] eqn:Hw;
    apply write_text_inv in Hw as (Hs & _ & _ & Hw).
  - injection H as <- <-. exists []. rewrite app_nil_r.
    destruct Hw as (_ & -> & _). split; [done|].
    split; [apply prefix_nil|done].
  - destruct (transcode_loop _ _ _ _ _ _ w1) as [[e|paths] w2] eqn:Hl;
      apply transcode_loop_spawned in Hl as (new & Hs' & Hp & Hr);
      injection H as <- <-; exists new; rewrite Hs', Hs;
      (split; [done|]); (split; [done|]); [done|].
    intros flacs listfile [= <- <-].
    destruct (Hr paths eq_refl) as [E ->]. done.
Qed.


Lemma run_inv (cmd : list string) (w : World) r w' :
  run host cmd w = (r, w') ->
  spawned w' = spawned w ++ [{| argv := cmd; seen := fs w |}] /\
  sys_stdout w' = sys_stdout w /\
  sys_stderr w' = sys_stderr w /\
  fs w' = (subprocess_run host cmd (fs w)).2 /\
  match r with
  | inl e => exists msg, e = RuntimeError msg
  | inr _ => True
  end.
Proof.
  rewrite run_unfold. simpl. intros [= <- <-]. simpl.
  repeat split. destruct (returncode _ =? 0)%Z; eauto.
Qed.

Lemma print_inv (s : string) (w : World) r w' :
  print s w = (r, w') ->
  r = inr tt /\ fs w' = fs w /\ spawned w' = spawned w /\
  sys_stdout w' = sys_stdout w +:+ s +:+ nl /\
  sys_stderr w' = sys_stderr w.
Proof. unfold print. by intros [= <- <-]. Qed.

(** [main], stage by stage. *)
Lemma main_unfold (args : Namespace) (w : World) :
  main host args w =
  if negb (path_exists (fs w) (root_of_args host args)) then
    (inl (FileNotFoundError
            ("Missing input directory: "
             +:+ PurePath.str (root_of_args host args))), w)
  else if negb (path_exists (fs w) (cover_of_args host args)) then
    (inl (FileNotFoundError
            ("Missing cover image: "
             +:+ PurePath.str (cover_of_args host args))), w)
  else
    match wavs_of_args host args (fs w) with
    | [] => (inl (SystemExit "No WAV files found."), w)
    | wav :: rest => after_validation host args (wav :: rest) w
    end.
Proof.
  unfold main, ensure_exists, bind, gets, raise, ret. simpl.
  destruct (path_exists (fs w) (root_of_args host args)); simpl; [|done].
  destruct (path_exists (fs w) (cover_of_args host args)); simpl; [|done].
  by destruct (wavs_of_args host args (fs w)).
Qed.

(** The processes the [with] block spawns are the planned ones, in
    order and up to where it stops; it returns the output path, and
    only after them all. *)
Lemma scratch_body_spawned (args : Namespace) (wavs : list Path)
    (tmpdir : string) (w : World) r w' :
  scratch_body host args wavs tmpdir w = (r, w') ->
  let workdir := PurePath.of_string tmpdir in
  exists new,
    spawned w' = spawned w ++ new /\
    argv <$> new `prefix_of`
      transcode_cmds workdir 1 wavs
      ++ [ concat_cmd (workdir // "flac_list.txt")
                      (workdir // "album_concat.flac");
           render_cmd (cover_of_args host args)
                      (workdir // "album_concat.flac")
                      (output_of_args host args) ] /\
    forall p,
      r = inr p ->
      p = output_of_args host args /\
      argv <$> new =
        transcode_cmds workdir 1 wavs
        ++ [ concat_cmd (workdir // "flac_list.txt")
                        (workdir // "album_concat.flac");
             render_cmd (cover_of_args host args)
                        (workdir // "album_concat.flac")
                        (output_of_args host args) ].
Proof.
  unfold scratch_body, bind, concat_flacs, render_video, ret, bind.
  intros H. set (workdir := PurePath.of_string tmpdir) in *.
  destruct (transcode_wavs_to_flacs _ _ _ w) as [[e|[flacs listfile]] w1]
    eqn:Ht; apply transcode_spawned in Ht as (new & Hs & Hp & Hr).
  { injection H as <- <-. exists new.
    split; [done|]. split; [by apply prefix_app_r|done]. }
  destruct (Hr _ _ eq_refl) as (Hall & -> & ->). clear Hr Hp.
  destruct (run host (concat_cmd _ _) w1) as [[e|o1] w2] eqn:Hc;
    apply run_inv in Hc as (Hs2 & _ & _ & _ & _); simpl in H.
  { injection H as <- <-.
    eexists (new ++ [_]). rewrite Hs2, Hs, <- app_assoc.
    split; [done|]. rewrite fmap_app, Hall. simpl.
    split; [|done]. apply prefix_app. by apply prefix_cons, prefix_nil. }
  destruct (run host (render_cmd _ _ _) _) as [[e|o2] w3] eqn:Hv;
    apply run_inv in Hv as (Hs3 & _ & _ & _ & _); simpl in Hs3;
    injection H as <- <-;
    eexists (new ++ [_; _]);
    rewrite Hs3, Hs2, Hs, <- !app_assoc;
    (split; [done|]); rewrite fmap_app, Hall; simpl;
    (split; [reflexivity|]); intros p Hp; by simplify_eq.
Qed.

Lemma after_validation_inv (args : Namespace) (wavs : list Path)
    (w : World) r w' :
  after_validation host args wavs w = (r, w') ->
  exists rb wb,
    scratch_body host args wavs (mkdtemp host (fs w))
      {| fs := <[mkdtemp host (fs w) := Dir]> (fs w);
         spawned := spawned w;
         sys_stdout :=
           sys_stdout w
           +:+ ("Found " +:+ Str.of_nat (length wavs)
                +:+ " WAV files. Concatenating audio...") +:+ nl;
         sys_stderr := sys_stderr w |} = (rb, wb) /\
    fs w' = rmtree (mkdtemp host (fs w)) (fs wb) /\
    spawned w' = spawned wb /\
    sys_stderr w' = sys_stderr wb /\
    match rb with
    | inl e => r = inl e /\ sys_stdout w' = sys_stdout wb
    | inr p =>
        r = inr tt /\
        sys_stdout w' =
          (sys_stdout wb +:+ "Done." +:+ nl)
          +:+ ("Output video: " +:+ PurePath.str p) +:+ nl
    end.
Proof.
  unfold after_validation, bind, print, TemporaryDirectory, set_fs. simpl.
  destruct (scratch_body _ _ _ _ _) as [[e|p] wb] eqn:Hb; simpl;
    intros [= <- <-]; eexists _, _; (split; [reflexivity|]); done.
Qed.

(** The processes of a whole run are the planned ones, in order and up
    to where the run stops; a run that returns has spawned them all. *)
Lemma main_spawned (args : Namespace) (w : World) r w' :
  main host args w = (r, w') ->
  exists new,
    spawned w' = spawned w ++ new /\
    argv <$> new `prefix_of` pipeline_cmds host args (fs w) /\
    (r = inr tt -> argv <$> new = pipeline_cmds host args (fs w)).
Proof.
  rewrite main_unfold. unfold pipeline_cmds.
  destruct (path_exists (fs w) (root_of_args host args)); simpl;
    [|spawns_nothing].
  destruct (path_exists (fs w) (cover_of_args host args)); simpl;
    [|spawns_nothing].
  destruct (wavs_of_args host args (fs w)) as [|wav rest];
    [spawns_nothing|].
  intros H. apply after_validation_inv in H
    as (rb & wb & Hb & _ & Hs & _ & Hr).
  apply scratch_body_spawned in Hb as (new & Hs' & Hp & Hall).
  simpl in Hs'. exists new. rewrite Hs, Hs'.
  split; [done|]. split; [done|]. intros ->.
  destruct rb as [e|p]; [by destruct Hr|]. by destruct (Hall p eq_refl).
Qed.

(** ** Standard error and the classes of the exceptions *)

Lemma quiet_ret {A} (a : A) : quiet (ret a).
Proof. by intros w. Qed.

Lemma quiet_bind {A B} (m : Py A) (k : A -> Py B) :
  quiet m -> (forall a, quiet (k a)) -> quiet (bind m k).
Proof.
  intros Hm Hk w. unfold bind. destruct (Hm w) as [Hs He].
  destruct (m w) as [[e|a] w1]; simpl in *.
  { split; [done|]. intros e0 [= <-]. by apply He. }
  destruct (Hk a w1) as [Hs' He']. split; [congruence|done].
Qed.

Lemma quiet_print (s : string) : quiet (print s).
Proof. by intros w. Qed.

Lemma quiet_run (cmd : list string) : quiet (run host cmd).
Proof.
  intros w. rewrite run_unfold. simpl. split; [done|].
  destruct (returncode _ =? 0)%Z; by intros e [= <-].
Qed.

Lemma quiet_write_text (p : Path) (s : string) : quiet (write_text p s).
Proof.
  intros w. unfold write_text.
  destruct (fs w !! PurePath.str p) as [[c|]|]; simpl; split; try done;
    by intros e [= <-].
Qed.

Lemma quiet_append_text (p : Path) (s : string) : quiet (append_text p s).
Proof.
  intros w. unfold append_text.
  destruct (fs w !! PurePath.str p) as [[c|]|]; simpl; split; try done;
    by intros e [= <-].
Qed.

Lemma quiet_transcode_loop (workdir list_path : Path) (wavs : list Path)
    (idx : nat) (acc : list Path) :
  quiet (transcode_loop host workdir list_path idx wavs acc).
Proof.
  revert idx acc. induction wavs as [|wav rest IH]; intros idx acc; simpl.
  - apply quiet_ret.
  - apply quiet_bind; [apply quiet_run|intros _].
    apply quiet_bind; [apply quiet_append_text|intros _]. apply IH.
Qed.

Lemma quiet_TemporaryDirectory {A} (body : string -> Py A) :
  (forall tmpdir, quiet (body tmpdir)) ->
  quiet (TemporaryDirectory host body).
Proof.
  intros Hb w. unfold TemporaryDirectory.
  destruct (Hb (mkdtemp host (fs w))
               (set_fs (<[mkdtemp host (fs w) := Dir]> (fs w)) w))
    as [Hs He].
  by destruct (body _ _) as [r w1].
Qed.

Create HintDb quiet.

#[local] Hint Resolve quiet_ret quiet_print quiet_run quiet_write_text
  quiet_append_text quiet_transcode_loop : quiet.

#[local] Hint Extern 1 (quiet (bind _ _)) =>
  apply quiet_bind; [|intros ?] : quiet.

#[local] Hint Extern 2 (quiet (match ?x with _ => _ end)) =>
  destruct x : quiet.

Lemma quiet_scratch_body (args : Namespace) (wavs : list Path)
    (tmpdir : string) :
  quiet (scratch_body host args wavs tmpdir).
Proof.
  unfold scratch_body, transcode_wavs_to_flacs, concat_flacs, render_video.
  auto 12 with quiet.
Qed.

#[local] Hint Resolve quiet_scratch_body quiet_TemporaryDirectory : quiet.

Lemma quiet_after_validation (args : Namespace) (wavs : list Path) :
  quiet (after_validation host args wavs).
Proof. unfold after_validation. auto 8 with quiet. Qed.

(** ** Removal of the scratch directory *)

Lemma rmtree_inside (d k : string) (m : FS) :
  in_dir d k = true -> rmtree d m !! k = None.
Proof.
  intros H. unfold rmtree. apply map_lookup_filter_None. right.
  intros x _. simpl. congruence.
Qed.

Lemma rmtree_outside (d k : string) (m : FS) :
  in_dir d k = false -> rmtree d m !! k = m !! k.
Proof.
  intros H. unfold rmtree.
  destruct (m !! k) as [x|] eqn:E.
  - by apply map_lookup_filter_Some.
  - apply map_lookup_filter_None. by left.
Qed.

End Laws.

(** ** The run as a whole *)

Section Run.

Context (host : Host).

(** [main] leaves standard error alone; the one [SystemExit] it can
    raise is the one for an empty source list. *)
Lemma main_quiet (args : Namespace) (w : World) r w' :
  main host args w = (r, w') ->
  sys_stderr w' = sys_stderr w /\
  forall e,
    r = inl e -> is_Exception e = false ->
    e = SystemExit "No WAV files found." /\
    wavs_of_args host args (fs w) = [].
Proof.
  rewrite main_unfold.
  destruct (path_exists (fs w) (root_of_args host args)); simpl;
    [|raises_at_once].
  destruct (path_exists (fs w) (cover_of_args host args)); simpl;
    [|raises_at_once].
  destruct (wavs_of_args host args (fs w)) as [|wav rest] eqn:Hw;
    [raises_at_once|].
  intros H.
  destruct (quiet_after_validation host args (wav :: rest) w) as [Hs He].
  rewrite H in Hs, He. simpl in Hs, He. split; [done|].
  intros e -> Hne. rewrite (He e eq_refl) in Hne. done.
Qed.

(** A run that returns has printed the summary line last. *)
Lemma main_summary (args : Namespace) (w : World) u w' :
  main host args w = (inr u, w') ->
  exists pre,
    sys_stdout w' =
      pre +:+ ("Output video: "
               +:+ PurePath.str (output_of_args host args)) +:+ nl.
Proof.
  rewrite main_unfold.
  destruct (path_exists (fs w) (root_of_args host args)); simpl; [|done].
  destruct (path_exists (fs w) (cover_of_args host args)); simpl; [|done].
  destruct (wavs_of_args host args (fs w)) as [|wav rest]; [done|].
  intros H. apply after_validation_inv in H
    as (rb & wb & Hb & _ & _ & _ & Hr).
  destruct rb as [e|p]; [by destruct Hr|]. destruct Hr as [_ ->].
  apply scratch_body_spawned in Hb as (new & _ & _ & Hall).
  destruct (Hall p eq_refl) as [-> _]. by eexists.
Qed.

(** The file system at the end of a run that passed validation holds
    nothing in the scratch directory. *)
Lemma after_validation_clean (args : Namespace) (wavs : list Path)
    (w : World) r w' (k : string) :
  after_validation host args wavs w = (r, w') ->
  in_dir (mkdtemp host (fs w)) k = true ->
  fs w' !! k = None.
Proof.
  intros H Hk. apply after_validation_inv in H
    as (rb & wb & _ & -> & _). by apply rmtree_inside.
Qed.

End Run.

(** ** The suffix test of the Renderer *)

Section Suffix.

Lemma lower_ascii_dot (c : ascii) :
  Str.lower_ascii c = "."%char -> c = "."%char.
Proof.
  destruct c as [[] [] [] [] [] [] [] []]; vm_compute; intros H;
    try discriminate H; reflexivity.
Qed.

Lemma lower_ascii_4 (c : ascii) :
  Str.lower_ascii c = "4"%char -> c = "4"%char.
Proof.
  destruct c as [[] [] [] [] [] [] [] []]; vm_compute; intros H;
    try discriminate H; reflexivity.
Qed.

Lemma lower_ascii_m (c : ascii) :
  Str.lower_ascii c = "m"%char -> c = "m"%char \/ c = "M"%char.
Proof.
  destruct c as [[] [] [] [] [] [] [] []]; vm_compute; intros H;
    try discriminate H; auto.
Qed.

Lemma lower_ascii_p (c : ascii) :
  Str.lower_ascii c = "p"%char -> c = "p"%char \/ c = "P"%char.
Proof.
  destruct c as [[] [] [] [] [] [] [] []]; vm_compute; intros H;
    try discriminate H; auto.
Qed.

(** Lowering gives [.mp4] exactly on its four letter-case variants. *)
Lemma lower_mp4 (s : string) :
  Str.lower s = ".mp4" <-> In s mp4_suffixes.
Proof.
  split.
  - destruct s as [|c1 [|c2 [|c3 [|c4 [|c5 s]]]]]; simpl; try done.
    intros [= H1 H2 H3 H4].
    apply lower_ascii_dot in H1 as ->. apply lower_ascii_4 in H4 as ->.
    apply lower_ascii_m in H2 as [-> | ->];
      apply lower_ascii_p in H3 as [-> | ->]; tauto.
  - simpl. intros [<-|[<-|[<-|[<-|[]]]]]; reflexivity.
Qed.

Lemma audio_codec_mp4 (output : Path) :
  In (PurePath.suffix output) mp4_suffixes ->
  audio_codec output = ["-c:a"; "aac"; "-b:a"; "320k"].
Proof.
  intros H. apply lower_mp4 in H. unfold audio_codec. by rewrite H.
Qed.

Lemma audio_codec_other (output : Path) :
  ~ In (PurePath.suffix output) mp4_suffixes ->
  audio_codec output = ["-c:a"; "copy"].
Proof.
  intros H. unfold audio_codec.
  destruct (String.eqb_spec (Str.lower (PurePath.suffix output)) ".mp4")
    as [E|N]; [|done].
  by apply lower_mp4 in E.
Qed.

End Suffix.

(** ** The overwrite flag *)

Section Overwrite.

Context (host : Host).

Lemma transcode_cmds_overwrite (workdir : Path) (wavs : list Path)
    (idx : nat) :
  Forall overwrites (transcode_cmds workdir idx wavs).
Proof.
  revert idx. induction wavs as [|wav rest IH]; intros idx; simpl.
  - constructor.
  - constructor; [by eexists|apply IH].
Qed.

Lemma pipeline_cmds_overwrite (args : Namespace) (m : FS) :
  Forall overwrites (pipeline_cmds host args m).
Proof.
  unfold pipeline_cmds. apply Forall_app.
  split; [apply transcode_cmds_overwrite|].
  repeat constructor; by eexists.
Qed.

Lemma render_cmd_destination (cover audio output : Path) :
  destination (render_cmd cover audio output)
  = Some (PurePath.str output).
Proof.
  unfold destination, render_cmd, audio_codec.
  by destruct (String.eqb _ _).
Qed.

(** Every process of a run carries [-y]; when the run returns, the
    last one is the render, and its destination is the resolved output
    path, which the arguments alone determine. *)
Lemma main_overwrites (args : Namespace) (w : World) :
  exists new,
    spawned (main host args w).2 = spawned w ++ new /\
    Forall (fun inv => overwrites (argv inv)) new /\
    match (main host args w).1 with
    | inr _ =>
        exists inv,
          last new = Some inv /\
          destination (argv inv)
          = Some (PurePath.str (output_of_args host args))
    | inl _ => True
    end.
Proof.
  destruct (main host args w) as [r w'] eqn:Hm. simpl.
  apply main_spawned in Hm as (new & Hs & [rest Hp] & Hall).
  exists new. split; [done|]. split.
  - apply (Forall_fmap argv overwrites).
    pose proof (pipeline_cmds_overwrite args (fs w)) as H.
    rewrite Hp in H. by apply Forall_app in H as [H _].
  - destruct r as [e|[]]; [done|].
    specialize (Hall eq_refl). unfold pipeline_cmds in Hall.
    destruct (last new) as [inv|] eqn:Hl.
    + exists inv. split; [done|].
      assert (last (argv <$> new) = Some (argv inv)) as Hl'
        by (by rewrite fmap_last, Hl).
      rewrite Hall, last_app in Hl'. simpl in Hl'.
      injection Hl' as <-. apply render_cmd_destination.
    + apply last_None in Hl as ->. simpl in Hall.
      by destruct (transcode_cmds _ _ _).
Qed.

End Overwrite.

(** ** The claims *)

(** C1, the claim as written fails: a run that finds no source file
    exits with code 1, and the one line it writes to standard error is
    [No WAV files found.], without the prefix [Error:]; and a run whose
    encoder fails writes two lines, the command and the encoder's
    output. *)
Lemma C1_error_line_counterexample :
  let no_inputs := main_guard (Sample.stub [] "" 0) Sample.args Sample.world in
  let failing :=
    main_guard (Sample.stub Sample.listing "/tmp/tmpx/02.flac" 3)
      Sample.args Sample.world in
  (no_inputs.1 = 1%Z /\
   sys_stderr no_inputs.2 = "No WAV files found." +:+ nl /\
   String.prefix "Error:" (sys_stderr no_inputs.2) = false) /\
  (failing.1 = 1%Z /\
   sys_stderr failing.2 =
     "Error: Command failed (3): ffmpeg -y -i /album/b.wav -c:a flac -sample_fmt s32 -ar 48000 /tmp/tmpx/02.flac"
     +:+ nl +:+ "boom" +:+ nl /\
   Str.count (ascii_of_nat 10) (sys_stderr failing.2) = 2).
Proof. vm_compute. repeat split. Qed.

(** C1, amended: for every run whose arguments were parsed, the exit code
    is 0 or 1.  It is 0 exactly when [main] returns, and then the last
    line printed is [Output video:] with the resolved output path, and
    nothing went to standard error.  When [main] raises a subclass of
    [Exception] the exit code is 1 and standard error gains [Error: ]
    followed by the exception's text (for a failed command that text
    runs over the command line and the encoder's output); when it raises
    [SystemExit], which happens only for an empty source list, the exit
    code is 1 and standard error gains the line [No WAV files found.]. *)
Theorem C1_exit_behaviour (host : Host) (args : Namespace) (w : World) :
  let code := (main_guard host args w).1 in
  let w' := (main_guard host args w).2 in
  match (main host args w).1 with
  | inr _ =>
      code = 0%Z /\
      sys_stderr w' = sys_stderr w /\
      exists pre,
        sys_stdout w' =
          pre +:+ ("Output video: "
                   +:+ PurePath.str (output_of_args host args)) +:+ nl
  | inl e =>
      code = 1%Z /\
      if is_Exception e then
        sys_stderr w' = sys_stderr w +:+ ("Error: " +:+ exn_str e) +:+ nl
      else
        e = SystemExit "No WAV files found." /\
        wavs_of_args host args (fs w) = [] /\
        sys_stderr w' = sys_stderr w +:+ "No WAV files found." +:+ nl
  end.
Proof.
  unfold main_guard.
  destruct (main host args w) as [[e|[]] w1] eqn:Hm; simpl.
  - destruct (main_quiet host args w _ _ Hm) as [Hs He].
    destruct (is_Exception e) eqn:Hx; simpl; rewrite Hs; split; try done.
    destruct (He e eq_refl Hx) as [-> Hw]. done.
  - destruct (main_quiet host args w _ _ Hm) as [Hs _].
    split; [done|]. split; [done|]. by eapply main_summary.
Qed.

(** C2: every process the Normalizer spawns, at position [j] from zero,
    is the encoder run on the source of that position with the vector
    below: the FLAC codec (lossless), sample format [s32] (the encoder's
    24-bit FLAC format), sample rate 48000, the intermediate numbered
    [j + 1] as destination, and [-y] to overwrite what is there. *)
Theorem C2_transcode_arguments (host : Host) (wavs : list Path)
    (workdir : Path) (w : World) :
  exists new,
    spawned (transcode_wavs_to_flacs host wavs workdir w).2
      = spawned w ++ new /\
    forall j inv,
      new !! j = Some inv ->
      exists wav,
        wavs !! j = Some wav /\
        argv inv =
          [ "ffmpeg"; "-y"; "-i"; PurePath.str wav;
            "-c:a"; "flac"; "-sample_fmt"; "s32"; "-ar"; "48000";
            PurePath.str (workdir // (Str.pad2 (S j) +:+ ".flac")) ] /\
        destination (argv inv)
          = Some (PurePath.str (workdir // (Str.pad2 (S j) +:+ ".flac"))) /\
        overwrites (argv inv).
Proof.
  destruct (transcode_wavs_to_flacs host wavs workdir w) as [r w'] eqn:H.
  apply transcode_spawned in H as (new & Hs & [rest Hp] & _).
  exists new. split; [done|]. intros j inv Hj.
  assert (transcode_cmds workdir 1 wavs !! j = Some (argv inv)) as Hc.
  { rewrite Hp. apply lookup_app_l_Some. by rewrite list_lookup_fmap, Hj. }
  rewrite transcode_cmds_lookup in Hc.
  destruct (wavs !! j) as [wav|]; [|done]. injection Hc as Hc.
  exists wav. split; [done|]. rewrite <- Hc.
  split; [done|]. split; [done|]. by eexists.
Qed.

(** C3: validation comes before any process.  A missing input directory
    and a missing cover image each end [main] with [FileNotFoundError]
    naming what is missing, and an empty list of regular files ends it
    with [SystemExit]; in all three cases the world is left exactly as it
    was, so nothing was spawned.  Conversely, a run in which anything was
    spawned has passed the three checks. *)
Theorem C3_validation_before_spawn (host : Host) (args : Namespace)
    (w : World) :
  let root := root_of_args host args in
  let cover := cover_of_args host args in
  (path_exists (fs w) root = false ->
   main host args w =
     (inl (FileNotFoundError
             ("Missing input directory: " +:+ PurePath.str root)), w)) /\
  (path_exists (fs w) root = true ->
   path_exists (fs w) cover = false ->
   main host args w =
     (inl (FileNotFoundError
             ("Missing cover image: " +:+ PurePath.str cover)), w)) /\
  (path_exists (fs w) root = true ->
   path_exists (fs w) cover = true ->
   wavs_of_args host args (fs w) = [] ->
   main host args w = (inl (SystemExit "No WAV files found."), w)) /\
  (spawned (main host args w).2 <> spawned w ->
   path_exists (fs w) root = true /\
   path_exists (fs w) cover = true /\
   wavs_of_args host args (fs w) <> []).
Proof.
  simpl. rewrite main_unfold.
  destruct (path_exists (fs w) (root_of_args host args));
    destruct (path_exists (fs w) (cover_of_args host args));
    destruct (wavs_of_args host args (fs w)); simpl;
    repeat split; try done.
Qed.

(** C3 at concrete runs: no input directory, no cover, no source. *)
Lemma C3_validation_witness :
  let host := Sample.stub Sample.listing "" 0 in
  let no_root :=
    {| input := "/nowhere"; cover := "cover.png";
       pattern := "*.wav"; output := "out.mp4" |} in
  let no_cover :=
    {| input := "/album"; cover := "front.jpg";
       pattern := "*.wav"; output := "out.mp4" |} in
  main host no_root Sample.world =
    (inl (FileNotFoundError "Missing input directory: /nowhere"),
     Sample.world) /\
  main host no_cover Sample.world =
    (inl (FileNotFoundError "Missing cover image: /album/front.jpg"),
     Sample.world) /\
  main (Sample.stub [] "" 0) Sample.args Sample.world =
    (inl (SystemExit "No WAV files found."), Sample.world).
Proof.
  split; [|split].
  - apply (C3_validation_before_spawn
             (Sample.stub Sample.listing "" 0)
             {| input := "/nowhere"; cover := "cover.png";
                pattern := "*.wav"; output := "out.mp4" |} Sample.world).
    vm_compute. reflexivity.
  - apply (C3_validation_before_spawn
             (Sample.stub Sample.listing "" 0)
             {| input := "/album"; cover := "front.jpg";
                pattern := "*.wav"; output := "out.mp4" |} Sample.world);
      vm_compute; reflexivity.
  - apply (C3_validation_before_spawn
             (Sample.stub [] "" 0) Sample.args Sample.world);
      vm_compute; reflexivity.
Defined.




(** C6: the process the Renderer spawns has the fixed video options, then
    the audio options, then the closing options with the output path; the
    audio options are AAC at 320k when the lowered suffix of the output
    path is [.mp4], and stream copy for every other suffix.  So
    [album.mp4] gets AAC at 320k, [album.flac] and [album.mkv] get
    copy. *)
Theorem C6_audio_branch (host : Host) (cover audio output : Path)
    (w : World) :
  spawned (render_video host cover audio output w).2 =
    spawned w ++
    [ {| argv :=
           video_options cover audio
           ++ (if String.eqb (Str.lower (PurePath.suffix output)) ".mp4"
               then ["-c:a"; "aac"; "-b:a"; "320k"]
               else ["-c:a"; "copy"])
           ++ closing_options output;
         seen := fs w |} ] /\
  audio_codec (PurePath.of_string "album.mp4")
    = ["-c:a"; "aac"; "-b:a"; "320k"] /\
  audio_codec (PurePath.of_string "album.flac") = ["-c:a"; "copy"] /\
  audio_codec (PurePath.of_string "album.mkv") = ["-c:a"; "copy"].
Proof.
  split; [|by vm_compute].
  unfold render_video, bind. rewrite run_unfold. simpl.
  by destruct (returncode _ =? 0)%Z.
Qed.

(** C7: in every run that passes validation, and so makes the scratch
    directory, nothing is left in that directory when the process ends:
    no key of the final file system is the directory or lies under it,
    whether the run returned or a stage raised. *)
Theorem C7_scratch_removed (host : Host) (args : Namespace) (w : World)
    (k : string)
    (Hroot : path_exists (fs w) (root_of_args host args) = true)
    (Hcover : path_exists (fs w) (cover_of_args host args) = true)
    (Hwavs : wavs_of_args host args (fs w) <> [])
    (Hk : in_dir (mkdtemp host (fs w)) k = true) :
  fs (main_guard host args w).2 !! k = None.
Proof.
  unfold main_guard.
  destruct (main host args w) as [r w'] eqn:Hm.
  assert (fs w' !! k = None) as Hclean.
  { rewrite main_unfold, Hroot, Hcover in Hm. simpl in Hm.
    destruct (wavs_of_args host args (fs w)) as [|wav rest]; [done|].
    by eapply after_validation_clean. }
  destruct r as [e|u]; [|done]. by destruct (is_Exception e).
Qed.

(** C7 on the sample album, in a run that returns and in a run whose
    second transcode fails: the first intermediate and the manifest are
    gone in both. *)
Lemma C7_scratch_removed_witness :
  let good := Sample.writer Sample.listing "" 0 in
  let bad := Sample.writer Sample.listing "/tmp/tmpx/02.flac" 3 in
  ((main_guard good Sample.args Sample.world).1 = 0%Z /\
   fs (main_guard good Sample.args Sample.world).2
     !! "/tmp/tmpx/01.flac" = None) /\
  ((main_guard bad Sample.args Sample.world).1 = 1%Z /\
   fs (main_guard bad Sample.args Sample.world).2
     !! "/tmp/tmpx/flac_list.txt" = None).
Proof.
  split; (split; [by vm_compute|]).
  - apply (C7_scratch_removed (Sample.writer Sample.listing "" 0)
             Sample.args Sample.world "/tmp/tmpx/01.flac");
      by vm_compute.
  - apply (C7_scratch_removed
             (Sample.writer Sample.listing "/tmp/tmpx/02.flac" 3)
             Sample.args Sample.world "/tmp/tmpx/flac_list.txt");
      by vm_compute.
Defined.

(** C8: every process of a run (each transcode, the concatenation, the
    render) is spawned with [-y] right after the program name, so the
    encoder overwrites what it finds at its destination.  The destination
    of the render is the output path resolved from the arguments; it does
    not depend on the file system, so a second run, started in the world
    the first one left, renders to the same path, again with [-y]. *)
Theorem C8_overwrite_everywhere (host : Host) (args : Namespace)
    (w : World) :
  let first := main host args w in
  let again := main host args first.2 in
  (exists new,
     spawned first.2 = spawned w ++ new /\
     Forall (fun inv => overwrites (argv inv)) new /\
     match first.1 with
     | inr _ =>
         exists inv,
           last new = Some inv /\
           destination (argv inv)
           = Some (PurePath.str (output_of_args host args))
     | inl _ => True
     end) /\
  (exists new,
     spawned again.2 = spawned first.2 ++ new /\
     Forall (fun inv => overwrites (argv inv)) new /\
     match again.1 with
     | inr _ =>
         exists inv,
           last new = Some inv /\
           destination (argv inv)
           = Some (PurePath.str (output_of_args host args))
     | inl _ => True
     end).
Proof.
  intros first again. split; apply main_overwrites.
Qed.

(** C9: the test is on the lowered suffix, so it does not see letter
    case: the audio options of the render are AAC at 320k exactly when
    the suffix of the output path is one of [.mp4], [.mP4], [.Mp4] and
    [.MP4], and stream copy for every other suffix; they sit in the
    vector between the video options and the closing options. *)
Theorem C9_case_insensitive (cover audio output : Path) :
  (In (PurePath.suffix output) [".mp4"; ".mP4"; ".Mp4"; ".MP4"] <->
   audio_codec output = ["-c:a"; "aac"; "-b:a"; "320k"]) /\
  (~ In (PurePath.suffix output) [".mp4"; ".mP4"; ".Mp4"; ".MP4"] <->
   audio_codec output = ["-c:a"; "copy"]) /\
  render_cmd cover audio output =
    video_options cover audio ++ audio_codec output
    ++ closing_options output /\
  audio_codec (PurePath.of_string "/album/FULL-GPU.MP4")
    = ["-c:a"; "aac"; "-b:a"; "320k"] /\
  audio_codec (PurePath.of_string "/album/Mix.Mp4")
    = ["-c:a"; "aac"; "-b:a"; "320k"].
Proof.
  fold mp4_suffixes.
  split; [|split; [|split; [reflexivity|by vm_compute]]].
  - split; [apply audio_codec_mp4|].
    intros H. destruct (decide (In (PurePath.suffix output) mp4_suffixes))
      as [Hin|Hout]; [done|].
    apply audio_codec_other in Hout. congruence.
  - split; [apply audio_codec_other|].
    intros H Hin. apply audio_codec_mp4 in Hin. congruence.
Qed.



(** ** Names in the scratch directory *)

Section Names.

Lemma count_split (sep : ascii) (s : string) :
  Str.count sep s = 0 -> Str.split sep s = [s].
Proof.
  induction s as [|c s IH]; simpl; [done|].
  destruct (Ascii.eqb c sep); [done|]. intros H. by rewrite IH.
Qed.

Lemma count_leading_slashes (s : string) :
  Str.count "/" s = 0 -> PurePath.leading_slashes s = 0.
Proof.
  destruct s as [|c s]; [done|]. simpl.
  destruct (Ascii.eqb_spec c "/") as [->|Hne]; [done|]. intros _.
  destruct c as [[] [] [] [] [] [] [] []]; try reflexivity. by destruct Hne.
Qed.

(** A name without a slash, other than the empty name and the dot, is a
    path of one component. *)
Lemma of_string_name (s : string) :
  Str.count "/" s = 0 -> s <> "" -> s <> "." ->
  PurePath.of_string s = {| anchor := ""; parts := [s] |}.
Proof.
  intros Hc He Hd. unfold PurePath.of_string, PurePath.root_of.
  rewrite count_leading_slashes, count_split by done. simpl.
  unfold PurePath.keep_part.
  destruct (String.eqb_spec s ""); [done|].
  by destruct (String.eqb_spec s ".").
Qed.

Lemma joinpath_name (p : Path) (s : string) :
  Str.count "/" s = 0 -> s <> "" -> s <> "." ->
  p // s = {| anchor := anchor p; parts := parts p ++ [s] |}.
Proof.
  intros Hc He Hd. unfold PurePath.joinpath. by rewrite of_string_name.
Qed.

Lemma join_snoc (ps : list string) (x : string) :
  ps <> [] ->
  Str.join "/" (ps ++ [x]) = Str.join "/" ps +:+ "/" +:+ x.
Proof.
  unfold Str.join. induction ps as [|p [|q ps] IH]; intros H; [done|done|].
  change (String.concat "/" ((p :: q :: ps) ++ [x]))
    with (p +:+ "/" +:+ String.concat "/" ((q :: ps) ++ [x])).
  rewrite IH by done.
  change (String.concat "/" (p :: q :: ps))
    with (p +:+ "/" +:+ String.concat "/" (q :: ps)).
  by rewrite !append_assoc.
Qed.

Lemma str_parts (p : Path) :
  parts p <> [] ->
  PurePath.str p = anchor p +:+ Str.join "/" (parts p).
Proof.
  intros H. unfold PurePath.str.
  destruct (anchor p); destruct (parts p); done.
Qed.

(** The string of a child is the string of its directory, a slash and
    the name. *)
Lemma str_child (p : Path) (x : string) :
  parts p <> [] ->
  PurePath.str {| anchor := anchor p; parts := parts p ++ [x] |}
  = PurePath.str p +:+ "/" +:+ x.
Proof.
  intros H. rewrite (str_parts p) by done.
  rewrite str_parts by (simpl; by destruct (parts p)). simpl.
  by rewrite join_snoc, append_assoc.
Qed.

Lemma join_snoc_inj (ps : list string) (x y : string) :
  Str.join "/" (ps ++ [x]) = Str.join "/" (ps ++ [y]) -> x = y.
Proof.
  destruct ps as [|p ps]; [done|].
  rewrite !join_snoc by done. intros H.
  apply (inj (String.app _)) in H. by apply (inj (String.app "/")) in H.
Qed.

(** Two children of one directory with the same string have the same
    name. *)
Lemma str_child_inj (p : Path) (x y : string) :
  PurePath.str {| anchor := anchor p; parts := parts p ++ [x] |}
  = PurePath.str {| anchor := anchor p; parts := parts p ++ [y] |} ->
  x = y.
Proof.
  rewrite !str_parts by (simpl; by destruct (parts p)). simpl.
  intros H. apply (inj (String.app _)) in H. by apply join_snoc_inj in H.
Qed.

Lemma prefix_append (s t : string) : String.prefix s (s +:+ t) = true.
Proof.
  induction s as [|a s IH]; [by destruct t|].
  rewrite append_cons. simpl. by destruct (ascii_dec a a).
Qed.

Lemma in_dir_self (d : string) : in_dir d d = true.
Proof. unfold in_dir. by rewrite String.eqb_refl. Qed.

Lemma in_dir_child (d x : string) : in_dir d (d +:+ "/" +:+ x) = true.
Proof.
  unfold in_dir. rewrite <- append_assoc, prefix_append.
  apply orb_true_r.
Qed.

(** The digits of a number hold no slash. *)
Lemma count_string_of_uint (d : Decimal.uint) :
  Str.count "/" (NilEmpty.string_of_uint d) = 0.
Proof. induction d; simpl; done. Qed.

Lemma count_pad2 (n : nat) : Str.count "/" (Str.pad2 n) = 0.
Proof.
  unfold Str.pad2, Str.of_nat.
  destruct (_ <? 2); rewrite ?count_append, count_string_of_uint; done.
Qed.

Lemma length_append (s t : string) :
  String.length (s +:+ t) = String.length s + String.length t.
Proof.
  induction s as [|a s IH]; [done|]. rewrite append_cons. simpl. by rewrite IH.
Qed.

(** The name of an intermediate is a path of one component. *)
Lemma flac_name (n : nat) :
  let s := Str.pad2 n +:+ ".flac" in
  Str.count "/" s = 0 /\ s <> "" /\ s <> ".".
Proof.
  simpl. split; [by rewrite count_append, count_pad2|].
  split; intros H; apply (f_equal String.length) in H;
    rewrite length_append, Nat.add_comm in H; discriminate H.
Qed.

Lemma intermediate_parts (workdir : Path) (n : nat) :
  intermediate workdir n =
  {| anchor := anchor workdir;
     parts := parts workdir ++ [Str.pad2 n +:+ ".flac"] |}.
Proof.
  destruct (flac_name n) as (H1 & H2 & H3). by apply joinpath_name.
Qed.

(** [pad2] can be read back, so it gives distinct numbers distinct
    names. *)
Lemma read_pad2 (n : nat) : read_nat (Str.pad2 n) = Some n.
Proof.
  unfold read_nat, Str.pad2, Str.of_nat.
  destruct (_ <? 2).
  - change ("0" +:+ ?s) with (String "0" s). simpl.
    rewrite NilEmpty.usu. simpl.
    change (Nat.of_uint (Decimal.D0 (Nat.to_uint n)))
      with (Nat.of_uint (Nat.to_uint n)).
    by rewrite Unsigned.of_to.
  - by rewrite NilEmpty.usu, Unsigned.of_to.
Qed.

Lemma append_inj_l (s t u : string) : s +:+ u = t +:+ u -> s = t.
Proof.
  revert t. induction s as [|a s IH]; intros [|b t] H.
  - done.
  - apply (f_equal String.length) in H.
    rewrite !length_append in H. simpl in H. lia.
  - apply (f_equal String.length) in H.
    rewrite !length_append in H. simpl in H. lia.
  - rewrite !append_cons in H. injection H as -> H. by rewrite (IH _ H).
Qed.

Lemma append_inj_length (s t u v : string) :
  String.length u = String.length v -> s +:+ u = t +:+ v -> s = t /\ u = v.
Proof.
  intros Hlen. revert t. induction s as [|a s IH]; intros [|b t] H.
  - done.
  - apply (f_equal String.length) in H.
    rewrite !length_append in H. simpl in H. lia.
  - apply (f_equal String.length) in H.
    rewrite !length_append in H. simpl in H. lia.
  - rewrite !append_cons in H. injection H as -> H.
    destruct (IH _ H) as [-> ->]. done.
Qed.

Lemma manifest_parts (workdir : Path) :
  workdir // "flac_list.txt" =
  {| anchor := anchor workdir; parts := parts workdir ++ ["flac_list.txt"] |}.
Proof. by apply joinpath_name. Qed.

Lemma concat_parts (workdir : Path) :
  workdir // "album_concat.flac" =
  {| anchor := anchor workdir;
     parts := parts workdir ++ ["album_concat.flac"] |}.
Proof. by apply joinpath_name. Qed.

Lemma intermediate_inj (workdir : Path) (i j : nat) :
  PurePath.str (intermediate workdir i)
  = PurePath.str (intermediate workdir j) -> i = j.
Proof.
  rewrite !intermediate_parts. intros H. apply str_child_inj in H.
  apply append_inj_l in H. apply (f_equal read_nat) in H.
  rewrite !read_pad2 in H. by injection H.
Qed.

Lemma intermediate_not_manifest (workdir : Path) (i : nat) :
  PurePath.str (intermediate workdir i)
  <> PurePath.str (workdir // "flac_list.txt").
Proof.
  rewrite intermediate_parts, manifest_parts. intros H.
  apply str_child_inj in H.
  change "flac_list.txt" with ("flac_lis" +:+ "t.txt") in H.
  by apply append_inj_length in H as [_ H].
Qed.

Lemma intermediate_not_concat (workdir : Path) (i : nat) :
  PurePath.str (intermediate workdir i)
  <> PurePath.str (workdir // "album_concat.flac").
Proof.
  rewrite intermediate_parts, concat_parts. intros H.
  apply str_child_inj in H.
  change "album_concat.flac" with ("album_concat" +:+ ".flac") in H.
  apply append_inj_l in H. apply (f_equal read_nat) in H.
  by rewrite read_pad2 in H.
Qed.

(** In a scratch directory with a normal name, the files of the script
    are its children. *)
Lemma manifest_key_child (tmpdir : string) :
  normal_dir tmpdir ->
  manifest_key tmpdir = tmpdir +:+ "/" +:+ "flac_list.txt".
Proof.
  intros [Hs Hp]. unfold manifest_key.
  by rewrite manifest_parts, str_child, Hs.
Qed.

Lemma concat_key_child (tmpdir : string) :
  normal_dir tmpdir ->
  PurePath.str (PurePath.of_string tmpdir // "album_concat.flac")
  = tmpdir +:+ "/" +:+ "album_concat.flac".
Proof.
  intros [Hs Hp]. by rewrite concat_parts, str_child, Hs.
Qed.

Lemma intermediate_key_child (tmpdir : string) (n : nat) :
  normal_dir tmpdir ->
  PurePath.str (intermediate (PurePath.of_string tmpdir) n)
  = tmpdir +:+ "/" +:+ Str.pad2 n +:+ ".flac".
Proof.
  intros [Hs Hp]. by rewrite intermediate_parts, str_child, Hs.
Qed.

Lemma manifest_key_not_dir (tmpdir : string) :
  normal_dir tmpdir -> manifest_key tmpdir <> tmpdir.
Proof.
  intros H. rewrite manifest_key_child by done. intros E.
  apply (f_equal String.length) in E. rewrite length_append in E.
  simpl in E. lia.
Qed.

End Names.

(** ** The stages, one after the other *)

Section Stages.

Context (host : Host).

Lemma fail_fast_app (l1 l2 : list Invocation) (e : option exn) :
  Forall (exited_ok host) l1 -> fail_fast host l2 e ->
  fail_fast host (l1 ++ l2) e.
Proof.
  intros H1 H2. destruct e as [[msg| | |]|]; simpl in *;
    try (by apply Forall_app).
  destruct H2 as (init & inv & -> & Hi & Hf).
  exists (l1 ++ init), inv. rewrite app_assoc.
  split; [done|]. split; [by apply Forall_app|done].
Qed.

Lemma fail_fast_nil (e : option exn) :
  (forall msg, e <> Some (RuntimeError msg)) -> fail_fast host [] e.
Proof.
  intros H. destruct e as [[msg| | |]|]; simpl; try done.
  by destruct (H msg).
Qed.

(** What one [run] leaves behind: one process, which exited with zero
    when [run] returned and failed with the error raised otherwise. *)
Lemma run_trace (cmd : list string) (w : World) r w' :
  run host cmd w = (r, w') ->
  let inv := {| argv := cmd; seen := fs w |} in
  spawned w' = spawned w ++ [inv] /\
  sys_stdout w' = sys_stdout w /\
  fs w' = (subprocess_run host cmd (fs w)).2 /\
  fail_fast host [inv] (raised r) /\
  (forall e, r = inl e -> exists msg, e = RuntimeError msg).
Proof.
  rewrite run_unfold. simpl. intros [= <- <-]. simpl.
  split; [done|]. split; [done|]. split; [done|].
  destruct (returncode _ =? 0)%Z eqn:Hrc; simpl.
  - split; [|intros e He; discriminate He].
    constructor; [by apply Z.eqb_eq in Hrc|constructor].
  - split; [|intros e [= <-]; by eexists].
    eexists [], _. split; [done|]. split; [constructor|].
    split; [by apply Z.eqb_neq|done].
Qed.

(** The transcode loop: what it spawns, prints, raises and changes. *)
Lemma transcode_loop_trace (workdir list_path : Path) (wavs : list Path)
    (idx : nat) (acc : list Path) (w : World) r w' :
  transcode_loop host workdir list_path idx wavs acc w = (r, w') ->
  exists new,
    spawned w' = spawned w ++ new /\
    sys_stdout w' = sys_stdout w /\
    fail_fast host new (raised r) /\
    (forall e, r = inl e ->
       (exists msg, e = RuntimeError msg) \/
       (exists f, e = IsADirectoryError f)) /\
    forall k,
      Forall (kept host k) new -> k <> PurePath.str list_path ->
      fs w' !! k = fs w !! k /\
      Forall (fun inv => seen inv !! k = fs w !! k) new.
Proof.
  revert idx acc w. induction wavs as [|wav rest IH]; intros idx acc w H.
  - simpl in H. injection H as <- <-. exists []. rewrite app_nil_r.
    split; [done|]. split; [done|]. split; [constructor|].
    split; [done|]. intros k _ _. split; [done|constructor].
  - rewrite transcode_loop_cons in H.
    destruct (run host _ w) as [[e|o] w1] eqn:Hrun;
      apply run_trace in Hrun as (Hs1 & Ho1 & Hf1 & Hff1 & He1).
    { injection H as <- <-. eexists. split; [done|]. split; [done|].
      split; [done|]. split; [intros ? [= <-]; left; by apply He1|].
      intros k Hk _. apply Forall_inv in Hk. rewrite Hf1, Hk.
      split; [done|]. by repeat constructor. }
    simpl in Hff1.
    destruct (append_text _ _ w1) as [[e|[]] w2] eqn:Ha;
      apply append_text_inv in Ha as (Hs2 & Ho2 & _ & Ha).
    { injection H as <- <-. destruct Ha as (-> & -> & _).
      eexists. split; [done|]. split; [done|]. split; [done|].
      split; [intros ? [= <-]; right; by eexists|].
      intros k Hk _. apply Forall_inv in Hk. rewrite Hf1, Hk.
      split; [done|]. by repeat constructor. }
    destruct Ha as (c & Hf2 & _).
    apply IH in H as (new & Hs & Ho & Hff & He & Hfr).
    eexists (_ :: new). rewrite Hs, Hs2, Hs1, <- app_assoc.
    split; [done|]. split; [congruence|].
    split; [by apply (fail_fast_app [_])|]. split; [done|].
    intros k Hk Hne. apply Forall_cons in Hk as [Hk0 Hk].
    destruct (Hfr k Hk Hne) as [Hk2 Hseen].
    assert (fs w2 !! k = fs w !! k) as Hw2.
    { by rewrite Hf2, lookup_insert_ne, Hf1, Hk0. }
    rewrite Hk2, Hw2. split; [done|]. constructor; [done|].
    eapply Forall_impl; [exact Hseen|]. intros inv Hinv. simpl in Hinv.
    congruence.
Qed.

(** The Normalizer as a whole. *)
Lemma transcode_trace (wavs : list Path) (workdir : Path) (w : World)
    r w' :
  transcode_wavs_to_flacs host wavs workdir w = (r, w') ->
  exists new,
    spawned w' = spawned w ++ new /\
    sys_stdout w' = sys_stdout w /\
    fail_fast host new (raised r) /\
    length new <= length wavs /\
    (forall x, r = inr x -> length new = length wavs) /\
    (forall e, r = inl e ->
       (exists msg, e = RuntimeError msg) \/
       (exists f, e = IsADirectoryError f)) /\
    forall k,
      Forall (kept host k) new ->
      k <> PurePath.str (workdir // "flac_list.txt") ->
      fs w' !! k = fs w !! k /\
      Forall (fun inv => seen inv !! k = fs w !! k) new.
Proof.
  intros H.
  destruct (transcode_spawned host _ _ _ _ _ H) as (new & Hs & Hp & Hr).
  exists new. split; [done|].
  assert (length new <= length wavs) as Hlen.
  { apply prefix_length in Hp.
    by rewrite length_fmap, transcode_cmds_length in Hp. }
  assert (forall x, r = inr x -> length new = length wavs) as Hall.
  { intros [flacs listfile] ->. destruct (Hr _ _ eq_refl) as [E _].
    apply (f_equal length) in E.
    by rewrite length_fmap, transcode_cmds_length in E. }
  unfold transcode_wavs_to_flacs, bind in H.
  destruct (write_text _ _ w) as [[e|[]] w1] eqn:Hw;
    apply write_text_inv in Hw as (Hs1 & Ho1 & _ & Hw).
  - injection H as <- <-. destruct Hw as (-> & Hww & _). subst w1.
    assert (new = []) as ->.
    { symmetry. apply (app_inv_head (spawned w)). by rewrite app_nil_r. }
    split; [done|]. split; [constructor|]. split; [done|].
    split; [done|]. split; [intros ? [= <-]; right; by eexists|].
    intros k _ _. split; [done|constructor].
  - destruct Hw as [Hf1 _].
    destruct (transcode_loop _ _ _ _ _ _ w1) as [rl w2] eqn:Hl.
    apply transcode_loop_trace in Hl as (new' & Hs' & Ho' & Hff & He & Hfr).
    assert (raised r = raised rl /\ w' = w2 /\
            forall e, r = inl e -> rl = inl e) as (Hraised & -> & Hinl).
    { destruct rl; injection H as <- <-; repeat split; congruence. }
    assert (new' = new) as ->.
    { rewrite Hs', Hs1 in Hs. by apply app_inv_head in Hs. }
    split; [congruence|]. split; [by rewrite Hraised|].
    split; [done|]. split; [done|].
    split; [intros e Hr'; by apply He, Hinl|].
    intros k Hk Hne. destruct (Hfr k Hk Hne) as [Hk2 Hseen].
    assert (fs w1 !! k = fs w !! k) as Hw1
      by (by rewrite Hf1, lookup_insert_ne).
    rewrite Hk2, Hw1. split; [done|].
    eapply Forall_impl; [exact Hseen|]. intros inv Hinv. simpl in Hinv.
    congruence.
Qed.

(** The body of the [with] block: the three stages in a row. *)
Lemma scratch_body_trace (args : Namespace) (wavs : list Path)
    (tmpdir : string) (w : World) r w' :
  scratch_body host args wavs tmpdir w = (r, w') ->
  exists new,
    spawned w' = spawned w ++ new /\
    fail_fast host new (raised r) /\
    sys_stdout w' =
      sys_stdout w
      +:+ (if length new =? length wavs + 2
           then rendering_line (output_of_args host args) +:+ nl
           else "") /\
    (forall p, r = inr p -> length new = length wavs + 2) /\
    (forall e, r = inl e ->
       (exists msg, e = RuntimeError msg) \/
       ((exists f, e = IsADirectoryError f) /\ length new <= length wavs)) /\
    forall k,
      Forall (kept host k) new -> k <> manifest_key tmpdir ->
      fs w' !! k = fs w !! k /\
      Forall (fun inv => seen inv !! k = fs w !! k) new.
Proof.
  unfold scratch_body, bind, concat_flacs, render_video, ret, bind,
    manifest_key.
  intros H. set (workdir := PurePath.of_string tmpdir) in *.
  destruct (transcode_wavs_to_flacs _ _ _ w) as [[e|[flacs listfile]] w1]
    eqn:Ht;
    apply transcode_trace in Ht as (new1 & Hs1 & Ho1 & Hff1 & Hle & Hall & He1 & Hfr1).
  { injection H as <- <-. exists new1. split; [done|]. split; [done|].
    split.
    { destruct (Nat.eqb_spec (length new1) (length wavs + 2)); [lia|].
      by rewrite append_nil_r. }
    split; [done|]. split; [|done].
    intros ? [= <-]. destruct (He1 e eq_refl) as [?|?]; auto. }
  specialize (Hall _ eq_refl). simpl in Hff1.
  destruct (run host (concat_cmd _ _) w1) as [[e|o1] w2] eqn:Hc;
    apply run_trace in Hc as (Hs2 & Ho2 & Hf2 & Hff2 & He2); simpl in H.
  { injection H as <- <-. eexists (new1 ++ [_]).
    rewrite Hs2, Hs1, <- app_assoc. split; [done|].
    split; [by apply fail_fast_app|]. split.
    { rewrite length_app. simpl.
      destruct (Nat.eqb_spec (length new1 + 1) (length wavs + 2)); [lia|].
      rewrite append_nil_r. congruence. }
    split; [done|]. split; [intros ? [= <-]; left; by apply He2|].
    intros k Hk Hne. apply Forall_app in Hk as [Hk Hk2].
    apply Forall_inv in Hk2. unfold kept in Hk2. simpl in Hk2.
    destruct (Hfr1 k Hk Hne) as [Hk1 Hseen].
    rewrite Hf2, Hk2, Hk1. split; [done|].
    apply Forall_app. split; [done|]. by repeat constructor. }
  simpl in Hff2.
  destruct (run host (render_cmd _ _ _) _) as [rv w3] eqn:Hv.
  apply run_trace in Hv as (Hs3 & Ho3 & Hf3 & Hff3 & He3).
  simpl in Hs3, Ho3, Hf3, Hff3.
  assert (raised r = raised rv /\ w' = w3 /\
          forall e, r = inl e -> rv = inl e) as (Hraised & -> & Hinl).
  { destruct rv; injection H as <- <-; repeat split; congruence. }
  eexists (new1 ++ [_; _]). rewrite Hs3, Hs2, Hs1, <- !app_assoc.
  split; [done|]. split.
  { rewrite Hraised. apply fail_fast_app; [done|].
    by apply (fail_fast_app [_]). }
  split.
  { rewrite length_app. simpl.
    destruct (Nat.eqb_spec (length new1 + 2) (length wavs + 2)); [|lia].
    rewrite Ho3. unfold rendering_line. congruence. }
  split; [intros; rewrite length_app; simpl; lia|].
  split; [intros e Hr; left; by apply He3, Hinl|].
  intros k Hk Hne. apply Forall_app in Hk as [Hk Hk23].
  apply Forall_cons in Hk23 as [Hk2 Hk3]. apply Forall_inv in Hk3.
  unfold kept in Hk2, Hk3. simpl in Hk2, Hk3.
  destruct (Hfr1 k Hk Hne) as [Hk1 Hseen].
  rewrite Hf3, Hk3, Hf2, Hk2, Hk1. split; [done|].
  apply Forall_app. split; [done|].
  constructor; [done|]. constructor; [|constructor]. simpl.
  by rewrite Hk2.
Qed.

(** The manifest under an encoder that leaves it alone on the transcode
    commands, which is all the loop asks of it. *)
Lemma transcode_loop_manifest_on (workdir list_path : Path)
    (wavs : list Path) (idx : nat) (acc : list Path) (w : World)
    (c : string) r w' :
  (forall wav n m,
     (subprocess_run host (transcode_cmd wav (intermediate workdir n)) m).2
       !! PurePath.str list_path
     = m !! PurePath.str list_path) ->
  fs w !! PurePath.str list_path = Some (File c) ->
  transcode_loop host workdir list_path idx wavs acc w = (r, w') ->
  exists new,
    spawned w' = spawned w ++ new /\
    (forall j inv,
       new !! j = Some inv ->
       seen inv !! PurePath.str list_path
       = Some (File (c +:+ manifest_text (intermediates workdir idx j)))) /\
    match r with
    | inr _ =>
        length new = length wavs /\
        fs w' !! PurePath.str list_path
        = Some (File (c +:+ manifest_text
                              (intermediates workdir idx (length wavs))))
    | inl e =>
        (exists inv, last new = Some inv /\ command_failed host inv e) /\
        1 <= length new /\
        fs w' !! PurePath.str list_path
        = Some (File (c +:+ manifest_text
                              (intermediates workdir idx (length new - 1))))
    end.
Proof.
  intros Hkeep. revert idx acc w c.
  induction wavs as [|wav rest IH]; intros idx acc w c Hc H.
  - simpl in H. injection H as <- <-. exists []. rewrite app_nil_r.
    split; [done|]. split; [done|].
    split; [done|]. by rewrite append_nil_r.
  - rewrite transcode_loop_cons, run_unfold in H. simpl in H.
    set (inv := {| argv := transcode_cmd wav (intermediate workdir idx);
                   seen := fs w |}) in *.
    assert (forall j i, [inv] !! j = Some i ->
              seen i !! PurePath.str list_path
              = Some (File (c +:+ manifest_text
                                    (intermediates workdir idx j)))) as H0.
    { intros [|j] i Hi; [|done]. injection Hi as <-.
      simpl. by rewrite append_nil_r. }
    destruct (returncode _ =? 0)%Z eqn:Hrc.
    + destruct (append_text _ _ _) as [[e|[]] w2] eqn:Ha;
        apply append_text_inv in Ha as (Hs & _ & _ & Ha); simpl in Hs, Ha.
      * destruct Ha as (_ & _ & Ha). rewrite Hkeep in Ha. congruence.
      * destruct Ha as (c' & Hfs & Hc').
        rewrite Hkeep, Hc in Hc'.
        assert (c' = c) as -> by (destruct Hc' as [|[? _]]; congruence).
        apply (IH _ _ _ (c +:+ manifest_line (intermediate workdir idx)))
          in H as (new & Hs' & Hseen & Hr);
          [|by rewrite Hfs, lookup_insert_eq].
        exists (inv :: new). rewrite Hs', Hs, <- app_assoc.
        split; [done|]. split.
        { intros [|j] i Hi; [by apply (H0 0)|].
          rewrite <- manifest_shift. by apply Hseen. }
        destruct r as [e|paths].
        -- destruct Hr as ((i & Hl & Hf) & Hlen & Hfs').
           split; [exists i; by rewrite last_cons, Hl|].
           split; [simpl; lia|].
           rewrite Hfs', manifest_shift.
           replace (length (inv :: new) - 1) with (S (length new - 1))
             by (simpl; lia).
           done.
        -- destruct Hr as (Hlen & Hfs').
           split; [simpl; lia|]. by rewrite Hfs', manifest_shift.
    + injection H as <- <-. exists [inv].
      split; [done|]. split; [done|].
      split; [exists inv; split; [done|]; split; [by apply Z.eqb_neq|done]|].
      split; [done|].
      simpl. by rewrite Hkeep, Hc, append_nil_r.
Qed.

Lemma transcode_manifest_on (wavs : list Path) (workdir : Path)
    (w : World) r w' :
  let key := PurePath.str (workdir // "flac_list.txt") in
  (forall wav n m,
     (subprocess_run host (transcode_cmd wav (intermediate workdir n)) m).2
       !! key = m !! key) ->
  fs w !! key <> Some Dir ->
  transcode_wavs_to_flacs host wavs workdir w = (r, w') ->
  exists new,
    spawned w' = spawned w ++ new /\
    (forall j inv,
       new !! j = Some inv ->
       seen inv !! key
       = Some (File (manifest_text (intermediates workdir 1 j)))) /\
    match r with
    | inr _ =>
        length new = length wavs /\
        fs w' !! key
        = Some (File (manifest_text
                        (intermediates workdir 1 (length wavs))))
    | inl e =>
        (exists inv, last new = Some inv /\ command_failed host inv e) /\
        1 <= length new /\
        fs w' !! key
        = Some (File (manifest_text
                        (intermediates workdir 1 (length new - 1))))
    end.
Proof.
  intros key Hkeep Hdir. unfold transcode_wavs_to_flacs, bind. intros H.
  destruct (write_text _ _ w) as [[e|[]] w1] eqn:Hw;
    apply write_text_inv in Hw as (Hs & _ & _ & Hw).
  - by destruct Hw as (_ & _ & Hw).
  - destruct Hw as [Hfs _].
    destruct (transcode_loop _ _ _ _ _ _ w1) as [[e|paths] w2] eqn:Hl;
      apply (transcode_loop_manifest_on _ _ _ _ _ _ "") in Hl
        as (new & Hs' & Hseen & Hr);
      try done; try (by rewrite Hfs, lookup_insert_eq);
      injection H as <- <-; exists new; rewrite Hs', Hs; done.
Qed.

End Stages.

(** ** Whole runs, stage by stage *)

Section Whole.

Context (host : Host).

(** A run either stops in validation, leaving the world as it was, or
    goes on with a source list that is not empty. *)
Lemma main_cases (args : Namespace) (w : World) r w' :
  main host args w = (r, w') ->
  (w' = w /\
   ((exists msg, r = inl (FileNotFoundError msg)) \/
    r = inl (SystemExit "No WAV files found.") /\
    wavs_of_args host args (fs w) = [])) \/
  (wavs_of_args host args (fs w) <> [] /\
   after_validation host args (wavs_of_args host args (fs w)) w = (r, w')).
Proof.
  rewrite main_unfold.
  destruct (path_exists (fs w) (root_of_args host args)); simpl;
    [|intros [= <- <-]; left; split; [done|]; left; by eexists].
  destruct (path_exists (fs w) (cover_of_args host args)); simpl;
    [|intros [= <- <-]; left; split; [done|]; left; by eexists].
  destruct (wavs_of_args host args (fs w)) as [|wav rest];
    [intros [= <- <-]; left; split; [done|]; by right|].
  intros H. by right.
Qed.

(** The world in which the [with] block of [main] starts. *)
Lemma after_validation_trace (args : Namespace) (wavs : list Path)
    (w : World) r w' :
  after_validation host args wavs w = (r, w') ->
  let tmpdir := mkdtemp host (fs w) in
  exists new,
    spawned w' = spawned w ++ new /\
    fail_fast host new (raised r) /\
    (match r with
     | inr _ =>
         length new = length wavs + 2 /\
         sys_stdout w' =
           sys_stdout w +:+ found_line wavs +:+ nl
           +:+ rendering_line (output_of_args host args) +:+ nl
           +:+ "Done." +:+ nl
           +:+ "Output video: "
           +:+ PurePath.str (output_of_args host args) +:+ nl
     | inl e =>
         ((exists msg, e = RuntimeError msg) \/
          ((exists f, e = IsADirectoryError f) /\
           length new <= length wavs)) /\
         sys_stdout w' =
           sys_stdout w +:+ found_line wavs +:+ nl
           +:+ (if length new =? length wavs + 2
                then rendering_line (output_of_args host args) +:+ nl
                else "")
     end) /\
    forall k,
      Forall (kept host k) new ->
      k <> manifest_key tmpdir -> k <> tmpdir ->
      Forall (fun inv => seen inv !! k = fs w !! k) new /\
      (in_dir tmpdir k = false -> fs w' !! k = fs w !! k).
Proof.
  intros H. apply after_validation_inv in H
    as (rb & wb & Hb & Hfs & Hs & _ & Hr).
  destruct (scratch_body_spawned host _ _ _ _ _ _ Hb)
    as (new0 & Hs0 & _ & Hout).
  apply scratch_body_trace in Hb
    as (new & Hs' & Hff & Ho & Hret & He & Hfr).
  simpl in Hs', Ho, Hfr, Hs0.
  assert (new0 = new) as -> by (rewrite Hs' in Hs0; by simplify_list_eq).
  exists new. split; [congruence|].
  assert (raised r = raised rb) as ->.
  { destruct rb as [e|p]; by destruct Hr as [-> _]. }
  split; [done|]. split.
  - destruct rb as [e|p]; destruct Hr as [-> Hso].
    + split; [by apply He|].
      rewrite Hso, Ho. fold (found_line wavs). by rewrite !append_assoc.
    + specialize (Hret p eq_refl).
      destruct (Hout p eq_refl) as [-> _]. split; [done|].
      rewrite Hso, Ho. fold (found_line wavs).
      rewrite (proj2 (Nat.eqb_eq _ _) Hret). by rewrite !append_assoc.
  - intros k Hk Hm Hd. destruct (Hfr k Hk Hm) as [Hkb Hseen].
    rewrite lookup_insert_ne in Hkb, Hseen by done.
    split; [done|]. intros Hin. by rewrite Hfs, rmtree_outside.
Qed.

End Whole.

(** ** Further properties of the script *)




(** X4: the script writes nothing outside its scratch directory.  For a
    scratch directory with a normal name, an entry of the file system
    that is neither the directory nor under it, and that the encoder
    leaves alone, is at the end of the process what it was at the start:
    a source file, the cover, or anything else. *)
Theorem X4_outside_untouched (host : Host) (args : Namespace) (w : World)
    (k : string)
    (Hnorm : normal_dir (mkdtemp host (fs w)))
    (Hkeep : encoder_keeps host k)
    (Hout : in_dir (mkdtemp host (fs w)) k = false) :
  fs (main_guard host args w).2 !! k = fs w !! k.
Proof.
  unfold main_guard. destruct (main host args w) as [r w'] eqn:Hm.
  assert (fs w' !! k = fs w !! k) as Hk.
  { destruct (main_cases host _ _ _ _ Hm) as [[-> _]|[_ Ha]]; [done|].
    apply after_validation_trace in Ha as (new & _ & _ & _ & Hfr).
    apply Hfr; try done.
    - apply Forall_forall. intros inv _. apply Hkeep.
    - intros ->. rewrite manifest_key_child, in_dir_child in Hout; done.
    - intros ->. by rewrite in_dir_self in Hout. }
  destruct r as [e|u]; [|done]. by destruct (is_Exception e).
Qed.

(** X4 on the sample album: the first track is what it was, after a run
    that returns. *)
Lemma X4_outside_untouched_witness :
  let host := Sample.stub Sample.listing "" 0 in
  normal_dir (mkdtemp host Sample.album) /\
  encoder_keeps host "/album/a.wav" /\
  in_dir (mkdtemp host Sample.album) "/album/a.wav" = false /\
  fs (main_guard host Sample.args Sample.world).2 !! "/album/a.wav"
  = Some (File "A").
Proof.
  split; [by vm_compute|]. split; [by intros cmd m|]. split; [by vm_compute|].
  apply (X4_outside_untouched (Sample.stub Sample.listing "" 0)
           Sample.args Sample.world "/album/a.wav").
  - by vm_compute.
  - by intros cmd m.
  - by vm_compute.
Defined.

(** X5: the scratch directory is there for every process.  When the
    encoder does not remove it, each process of a run starts in a file
    system that holds the scratch directory: it is made before the first
    transcode and removed only after the last process. *)
Theorem X5_scratch_present (host : Host) (args : Namespace) (w : World)
    (Hnorm : normal_dir (mkdtemp host (fs w)))
    (Hkeep : encoder_keeps host (mkdtemp host (fs w))) :
  exists new,
    spawned (main host args w).2 = spawned w ++ new /\
    Forall (fun inv => seen inv !! mkdtemp host (fs w) = Some Dir) new.
Proof.
  destruct (main host args w) as [r w'] eqn:Hm. simpl.
  destruct (main_cases host _ _ _ _ Hm) as [[-> _]|[_ Ha]].
  - exists []. by rewrite app_nil_r.
  - unfold after_validation, bind, print, TemporaryDirectory, set_fs in Ha.
    simpl in Ha.
    destruct (scratch_body _ _ _ _ _) as [rb wb] eqn:Hb.
    apply scratch_body_trace in Hb as (new & Hs & _ & _ & _ & _ & Hfr).
    simpl in Hs, Hfr.
    destruct (Hfr (mkdtemp host (fs w))) as [_ Hseen].
    { apply Forall_forall. intros inv _. apply Hkeep. }
    { intros E. by apply (manifest_key_not_dir _ Hnorm). }
    exists new. split.
    + destruct rb; injection Ha as <- <-; done.
    + eapply Forall_impl; [exact Hseen|]. intros inv Hinv. simpl in Hinv.
      by rewrite Hinv, lookup_insert_eq.
Qed.

(** X5 on the sample album. *)
Lemma X5_scratch_present_witness :
  let host := Sample.stub Sample.listing "" 0 in
  normal_dir "/tmp/tmpx" /\
  encoder_keeps host "/tmp/tmpx" /\
  exists new,
    spawned (main host Sample.args Sample.world).2 = [] ++ new /\
    Forall (fun inv => seen inv !! "/tmp/tmpx" = Some Dir) new.
Proof.
  split; [by vm_compute|]. split; [by intros cmd m|].
  apply (X5_scratch_present (Sample.stub Sample.listing "" 0)
           Sample.args Sample.world).
  - by vm_compute.
  - by intros cmd m.
Defined.

(** *** Destinations *)

Section Destinations.

Context (host : Host).

Lemma transcode_cmd_destination (wav flac_out : Path) :
  destination (transcode_cmd wav flac_out) = Some (PurePath.str flac_out).
Proof. reflexivity. Qed.

Lemma concat_cmd_destination (list_path out_flac : Path) :
  destination (concat_cmd list_path out_flac)
  = Some (PurePath.str out_flac).
Proof. reflexivity. Qed.

(** The transcodes a run of the Normalizer spawned, by position. *)
Lemma transcode_spawned_lookup (wavs : list Path) (workdir : Path)
    (w : World) r w' :
  transcode_wavs_to_flacs host wavs workdir w = (r, w') ->
  exists new,
    spawned w' = spawned w ++ new /\
    forall j inv,
      new !! j = Some inv ->
      exists wav,
        wavs !! j = Some wav /\
        argv inv = transcode_cmd wav (intermediate workdir (S j)).
Proof.
  intros H. apply transcode_spawned in H as (new & Hs & [rest Hp] & _).
  exists new. split; [done|]. intros j inv Hj.
  assert (transcode_cmds workdir 1 wavs !! j = Some (argv inv)) as Hc.
  { rewrite Hp. apply lookup_app_l_Some. by rewrite list_lookup_fmap, Hj. }
  rewrite transcode_cmds_lookup in Hc.
  destruct (wavs !! j) as [wav|]; [|done]. injection Hc as Hc.
  by exists wav.
Qed.

(** Where each planned process writes: the first [N + 1] (the transcodes
    and the concatenation) into the scratch directory, the last one (the
    render) to the output path. *)
Lemma pipeline_destination (args : Namespace) (m : FS) (j : nat)
    (cmd : list string) :
  normal_dir (mkdtemp host m) ->
  pipeline_cmds host args m !! j = Some cmd ->
  exists dst,
    destination cmd = Some dst /\
    if j <? length (wavs_of_args host args m) + 1
    then in_dir (mkdtemp host m) dst = true
    else dst = PurePath.str (output_of_args host args).
Proof.
  intros Hnorm. unfold pipeline_cmds.
  set (wavs := wavs_of_args host args m).
  set (workdir := PurePath.of_string (mkdtemp host m)).
  destruct (decide (j < length wavs)) as [Hlt|Hge].
  - rewrite lookup_app_l by (by rewrite transcode_cmds_length).
    rewrite transcode_cmds_lookup.
    destruct (wavs !! j) as [wav|]; [|done]. intros [= <-].
    eexists. split; [apply transcode_cmd_destination|].
    destruct (Nat.ltb_spec j (length wavs + 1)); [|lia].
    subst workdir. rewrite intermediate_key_child by done.
    apply in_dir_child.
  - rewrite lookup_app_r by (rewrite transcode_cmds_length; lia).
    rewrite transcode_cmds_length.
    destruct (j - length wavs) as [|[|n]] eqn:E; simpl; [| |done];
      intros [= <-].
    + eexists. split; [apply concat_cmd_destination|].
      destruct (Nat.ltb_spec j (length wavs + 1)); [|lia].
      subst workdir. rewrite concat_key_child by done. apply in_dir_child.
    + eexists. split; [apply render_cmd_destination|].
      destruct (Nat.ltb_spec j (length wavs + 1)); [lia|done].
Qed.

End Destinations.

(** X6: where the processes of a run write.  For a scratch directory
    with a normal name, the manifest lies in it, and so does the
    destination of every process but the render: the first [N + 1]
    processes (the transcodes of the [N] sources and the concatenation)
    write into the scratch directory; the one after them, the render,
    writes to the resolved output path. *)
Theorem X6_destinations (host : Host) (args : Namespace) (w : World)
    (Hnorm : normal_dir (mkdtemp host (fs w))) :
  let tmpdir := mkdtemp host (fs w) in
  in_dir tmpdir (manifest_key tmpdir) = true /\
  exists new,
    spawned (main host args w).2 = spawned w ++ new /\
    forall j inv,
      new !! j = Some inv ->
      exists dst,
        destination (argv inv) = Some dst /\
        if j <? length (wavs_of_args host args (fs w)) + 1
        then in_dir tmpdir dst = true
        else dst = PurePath.str (output_of_args host args).
Proof.
  simpl. split.
  { rewrite manifest_key_child by done. apply in_dir_child. }
  destruct (main host args w) as [r w'] eqn:Hm. simpl.
  apply main_spawned in Hm as (new & Hs & [rest Hp] & _).
  exists new. split; [done|]. intros j inv Hj.
  apply (pipeline_destination host args (fs w) j); [done|].
  rewrite Hp. apply lookup_app_l_Some. by rewrite list_lookup_fmap, Hj.
Qed.

(** X6 on the sample album. *)
Lemma X6_destinations_witness :
  let host := Sample.writer Sample.listing "" 0 in
  normal_dir "/tmp/tmpx" /\
  in_dir "/tmp/tmpx" (manifest_key "/tmp/tmpx") = true /\
  exists new,
    spawned (main host Sample.args Sample.world).2 = [] ++ new /\
    forall j inv,
      new !! j = Some inv ->
      exists dst,
        destination (argv inv) = Some dst /\
        if j <? 2 + 1
        then in_dir "/tmp/tmpx" dst = true
        else dst = "/album/FULL-GPU.mp4".
Proof.
  split; [by vm_compute|].
  apply (X6_destinations (Sample.writer Sample.listing "" 0)
           Sample.args Sample.world).
  by vm_compute.
Defined.

(** X7: the numbering gives every transcode a file of its own.  Two
    intermediates with the same path have the same number, whatever the
    number of digits, and no intermediate is the manifest or the combined
    audio.  So among the processes the Normalizer spawns no two have the
    same destination, and none writes the manifest or the file the
    concatenation will write. *)
Theorem X7_intermediates_distinct (host : Host) (wavs : list Path)
    (workdir : Path) (w : World) :
  (forall i j,
     PurePath.str (workdir // (Str.pad2 i +:+ ".flac"))
     = PurePath.str (workdir // (Str.pad2 j +:+ ".flac")) -> i = j) /\
  exists new,
    spawned (transcode_wavs_to_flacs host wavs workdir w).2
      = spawned w ++ new /\
    (forall i j a b,
       new !! i = Some a -> new !! j = Some b ->
       destination (argv a) = destination (argv b) -> i = j) /\
    (forall i a,
       new !! i = Some a ->
       destination (argv a)
         <> Some (PurePath.str (workdir // "flac_list.txt")) /\
       destination (argv a)
         <> Some (PurePath.str (workdir // "album_concat.flac"))).
Proof.
  split; [intros i j; apply intermediate_inj|].
  destruct (transcode_wavs_to_flacs host wavs workdir w) as [r w'] eqn:H.
  apply transcode_spawned_lookup in H as (new & Hs & Hl).
  exists new. split; [done|]. split.
  - intros i j a b Ha Hb.
    destruct (Hl _ _ Ha) as (wa & _ & ->), (Hl _ _ Hb) as (wb & _ & ->).
    rewrite !transcode_cmd_destination. intros [= E].
    apply intermediate_inj in E. lia.
  - intros i a Ha. destruct (Hl _ _ Ha) as (wa & _ & ->).
    rewrite transcode_cmd_destination.
    split; intros [= E]; revert E;
      [apply intermediate_not_manifest|apply intermediate_not_concat].
Qed.

(** *** The manifest the concatenation reads *)

Section Manifest.

Context (host : Host).

(** An encoder that writes only its destination leaves the manifest
    alone on every transcode. *)
Lemma transcodes_keep_manifest (workdir : Path) :
  writes_only_destination host ->
  forall wav n m,
    (subprocess_run host (transcode_cmd wav (intermediate workdir n)) m).2
      !! PurePath.str (workdir // "flac_list.txt")
    = m !! PurePath.str (workdir // "flac_list.txt").
Proof.
  intros Hw wav n m. apply Hw. rewrite transcode_cmd_destination.
  intros [= E]. by apply intermediate_not_manifest in E.
Qed.

(** In the [with] block, the process after the [N] transcodes is the
    concatenation, and it starts with the [N] lines in the manifest. *)
Lemma scratch_body_manifest (args : Namespace) (wavs : list Path)
    (tmpdir : string) (w : World) r w' :
  writes_only_destination host ->
  fs w !! manifest_key tmpdir <> Some Dir ->
  scratch_body host args wavs tmpdir w = (r, w') ->
  let workdir := PurePath.of_string tmpdir in
  exists new,
    spawned w' = spawned w ++ new /\
    (forall j inv,
       j < length wavs -> new !! j = Some inv ->
       seen inv !! manifest_key tmpdir
       = Some (File (manifest_text (intermediates workdir 1 j)))) /\
    forall inv,
      new !! length wavs = Some inv ->
      argv inv = concat_cmd (workdir // "flac_list.txt")
                   (workdir // "album_concat.flac") /\
      seen inv !! manifest_key tmpdir
      = Some (File (manifest_text
                      (intermediates workdir 1 (length wavs)))).
Proof.
  intros Hw Hdir. unfold manifest_key in *.
  unfold scratch_body, bind, concat_flacs, render_video, ret, bind.
  intros H. set (workdir := PurePath.of_string tmpdir) in *.
  destruct (transcode_wavs_to_flacs _ _ _ w) as [rt w1] eqn:Ht.
  destruct (transcode_spawned host _ _ _ _ _ Ht) as (new1 & Hs1 & Hp & Hr).
  destruct (transcode_manifest_on host _ _ _ _ _
              (transcodes_keep_manifest workdir Hw) Hdir Ht)
    as (new1' & Hs1' & Hseen & Hm).
  assert (new1' = new1) as -> by (rewrite Hs1 in Hs1'; by simplify_list_eq).
  assert (length new1 <= length wavs) as Hle.
  { apply prefix_length in Hp.
    by rewrite length_fmap, transcode_cmds_length in Hp. }
  assert (forall l j inv,
            j < length wavs -> (new1 ++ l) !! j = Some inv ->
            length new1 = length wavs \/ l = [] ->
            seen inv !! PurePath.str (workdir // "flac_list.txt")
            = Some (File (manifest_text (intermediates workdir 1 j))))
    as Hfirst.
  { intros l j inv Hj Hl Hcase. apply (Hseen j).
    destruct Hcase as [Hn| ->]; [|by rewrite app_nil_r in Hl].
    rewrite lookup_app_l in Hl by lia. done. }
  destruct rt as [e|[flacs listfile]].
  { injection H as <- <-. exists new1. split; [done|].
    split; [intros j inv Hj Hl; apply (Hfirst [] j);
              [done|by rewrite app_nil_r|by right]|].
    intros inv Hinv. apply lookup_lt_Some in Hinv. lia. }
  destruct (Hr _ _ eq_refl) as (_ & -> & ->). destruct Hm as [Hlen Hfs].
  destruct (run host (concat_cmd _ _) w1) as [[e|o1] w2] eqn:Hc;
    apply run_inv in Hc as (Hs2 & _ & _ & _ & _); simpl in H.
  { injection H as <- <-. eexists (new1 ++ [_]).
    rewrite Hs2, Hs1, <- app_assoc. split; [done|].
    split; [intros j inv Hj Hl; by apply (Hfirst _ j inv Hj Hl); left|].
    intros inv. rewrite lookup_app_r, Hlen, Nat.sub_diag by lia.
    by intros [= <-]. }
  destruct (run host (render_cmd _ _ _) _) as [rv w3] eqn:Hv.
  apply run_inv in Hv as (Hs3 & _ & _ & _ & _). simpl in Hs3.
  assert (w' = w3) as -> by (destruct rv; by injection H as <- <-).
  eexists (new1 ++ [_; _]). rewrite Hs3, Hs2, Hs1, <- !app_assoc.
  split; [done|].
  split; [intros j inv Hj Hl; by apply (Hfirst _ j inv Hj Hl); left|].
  intros inv. rewrite lookup_app_r, Hlen, Nat.sub_diag by lia.
  by intros [= <-].
Qed.

End Manifest.

(** The sample encoder [destination_writer] writes only its
    destination. *)
Lemma destination_writer_only (found : list string) (bad : string)
    (rc : Z) :
  writes_only_destination (Sample.encoder found bad rc).
Proof.
  intros cmd m k Hk. simpl. unfold destination_writer.
  destruct (existsb _ cmd); [done|].
  destruct (destination cmd) as [d|] eqn:E; [|done]. simpl.
  apply lookup_insert_ne. congruence.
Qed.

(** X8: the concatenation reads one line per source, in source order.
    Over an encoder that writes nothing but its destination, with a
    scratch directory of normal name whose manifest path is not a
    directory: the process spawned after the [N] transcodes is the
    concatenation, its input is the manifest, and the manifest it starts
    with holds exactly the lines of the intermediates 1 to [N], in that
    order; the transcode of position [j] started with the first [j] of
    them. *)
Theorem X8_concat_reads_manifest (host : Host) (args : Namespace)
    (w : World)
    (Hw : writes_only_destination host)
    (Hnorm : normal_dir (mkdtemp host (fs w)))
    (Hdir : fs w !! manifest_key (mkdtemp host (fs w)) <> Some Dir) :
  let tmpdir := mkdtemp host (fs w) in
  let workdir := PurePath.of_string tmpdir in
  let wavs := wavs_of_args host args (fs w) in
  exists new,
    spawned (main host args w).2 = spawned w ++ new /\
    (forall j inv,
       j < length wavs -> new !! j = Some inv ->
       seen inv !! manifest_key tmpdir
       = Some (File (manifest_text (intermediates workdir 1 j)))) /\
    forall inv,
      new !! length wavs = Some inv ->
      argv inv =
        [ "ffmpeg"; "-y"; "-f"; "concat"; "-safe"; "0";
          "-i"; manifest_key tmpdir;
          "-c:a"; "flac"; "-sample_fmt"; "s32"; "-ar"; "48000";
          PurePath.str (workdir // "album_concat.flac") ] /\
      seen inv !! manifest_key tmpdir
      = Some (File (manifest_text
                      (intermediates workdir 1 (length wavs)))).
Proof.
  simpl. destruct (main host args w) as [r w'] eqn:Hm. simpl.
  destruct (main_cases host _ _ _ _ Hm) as [[-> _]|[_ Ha]].
  - exists []. by rewrite app_nil_r.
  - unfold after_validation, bind, print, TemporaryDirectory, set_fs in Ha.
    simpl in Ha.
    destruct (scratch_body _ _ _ _ _) as [rb wb] eqn:Hb.
    apply scratch_body_manifest in Hb as (new & Hs & Hseen & Hc);
      [|done|].
    + exists new. split; [|done].
      destruct rb; by injection Ha as <- <-.
    + simpl. rewrite lookup_insert_ne; [done|].
      intros E. by apply (manifest_key_not_dir _ Hnorm).
Qed.

(** X8 on the sample album, with the encoder that writes its
    destinations. *)
Lemma X8_concat_reads_manifest_witness :
  let host := Sample.encoder Sample.listing "" 0 in
  let workdir := Sample.workdir in
  writes_only_destination host /\
  normal_dir "/tmp/tmpx" /\
  fs Sample.world !! manifest_key "/tmp/tmpx" = None /\
  exists new,
    spawned (main host Sample.args Sample.world).2 = [] ++ new /\
    (forall j inv,
       j < 2 -> new !! j = Some inv ->
       seen inv !! manifest_key "/tmp/tmpx"
       = Some (File (manifest_text (intermediates workdir 1 j)))) /\
    forall inv,
      new !! 2 = Some inv ->
      argv inv =
        [ "ffmpeg"; "-y"; "-f"; "concat"; "-safe"; "0";
          "-i"; manifest_key "/tmp/tmpx";
          "-c:a"; "flac"; "-sample_fmt"; "s32"; "-ar"; "48000";
          PurePath.str (workdir // "album_concat.flac") ] /\
      seen inv !! manifest_key "/tmp/tmpx"
      = Some (File (manifest_text (intermediates workdir 1 2))).
Proof.
  split; [apply destination_writer_only|].
  split; [by vm_compute|]. split; [by vm_compute|].
  apply (X8_concat_reads_manifest (Sample.encoder Sample.listing "" 0)
           Sample.args Sample.world).
  - apply destination_writer_only.
  - by vm_compute.
  - by vm_compute.
Defined.

(** X9: over an encoder that writes nothing but its destination, a run
    changes nothing outside the scratch directory except the output
    path, and not even that when it stops before the render: an entry
    that is neither in the scratch directory nor the output path is at
    the end what it was at the start, and so is the output path itself
    when fewer than [N + 2] processes were spawned.  So a run that fails
    in a transcode or in the concatenation leaves no new or changed
    output file. *)
Theorem X9_no_partial_output (host : Host) (args : Namespace) (w : World)
    (k : string)
    (Hw : writes_only_destination host)
    (Hnorm : normal_dir (mkdtemp host (fs w)))
    (Hout : in_dir (mkdtemp host (fs w)) k = false) :
  let g := main_guard host args w in
  exists new,
    spawned g.2 = spawned w ++ new /\
    (k <> PurePath.str (output_of_args host args) \/
     length new < length (wavs_of_args host args (fs w)) + 2 ->
     fs g.2 !! k = fs w !! k).
Proof.
  simpl. unfold main_guard. destruct (main host args w) as [r w'] eqn:Hm.
  assert (exists new,
            spawned w' = spawned w ++ new /\
            (k <> PurePath.str (output_of_args host args) \/
             length new < length (wavs_of_args host args (fs w)) + 2 ->
             fs w' !! k = fs w !! k)) as (new & Hs & Hk).
  { destruct (main_spawned host _ _ _ _ Hm) as (new & Hs & [rest Hp] & _).
    exists new. split; [done|]. intros Hcase.
    destruct (main_cases host _ _ _ _ Hm) as [[-> _]|[_ Ha]]; [done|].
    apply after_validation_trace in Ha as (new' & Hs' & _ & _ & Hfr).
    assert (new' = new) as -> by (rewrite Hs in Hs'; by simplify_list_eq).
    apply Hfr; try done.
    - apply Forall_lookup. intros j inv Hj. apply Hw.
      assert (pipeline_cmds host args (fs w) !! j = Some (argv inv)) as Hc.
      { rewrite Hp. apply lookup_app_l_Some.
        by rewrite list_lookup_fmap, Hj. }
      apply pipeline_destination in Hc as (dst & -> & Hdst); [|done].
      intros [= ->]. apply lookup_lt_Some in Hj.
      destruct (Nat.ltb_spec j
                  (length (wavs_of_args host args (fs w)) + 1)).
      + congruence.
      + destruct Hcase as [Hne|Hlt]; [done|lia].
    - intros ->. rewrite manifest_key_child, in_dir_child in Hout; done.
    - intros ->. by rewrite in_dir_self in Hout. }
  exists new. destruct r as [e|u]; [|done]. by destruct (is_Exception e).
Qed.

(** X9 on the sample album: when the concatenation fails, the output
    path, which held an older render, still holds it. *)
Lemma X9_no_partial_output_witness :
  let host := Sample.encoder Sample.listing "concat" 1 in
  let older :=
    {| fs := <["/album/FULL-GPU.mp4" := File "older"]> Sample.album;
       spawned := []; sys_stdout := ""; sys_stderr := "" |} in
  writes_only_destination host /\
  normal_dir "/tmp/tmpx" /\
  in_dir "/tmp/tmpx" "/album/FULL-GPU.mp4" = false /\
  fs older !! "/album/FULL-GPU.mp4" = Some (File "older") /\
  exists new,
    spawned (main_guard host Sample.args older).2 = [] ++ new /\
    ("/album/FULL-GPU.mp4"
       <> PurePath.str (output_of_args host Sample.args) \/
     length new < length (wavs_of_args host Sample.args (fs older)) + 2 ->
     fs (main_guard host Sample.args older).2 !! "/album/FULL-GPU.mp4"
     = fs older !! "/album/FULL-GPU.mp4").
Proof.
  split; [apply destination_writer_only|].
  split; [by vm_compute|]. split; [by vm_compute|]. split; [by vm_compute|].
  apply (X9_no_partial_output (Sample.encoder Sample.listing "concat" 1)
           Sample.args
           {| fs := <["/album/FULL-GPU.mp4" := File "older"]> Sample.album;
              spawned := []; sys_stdout := ""; sys_stderr := "" |}
           "/album/FULL-GPU.mp4").
  - apply destination_writer_only.
  - by vm_compute.
  - by vm_compute.
Defined.

(** ** The order of the directory listing *)

Section Listing.

(** On paths with the same anchor "not greater" is antisymmetric: the
    comparison looks at every component. *)
Lemma path_le_antisym (p q : Path) :
  anchor p = anchor q -> path_le p q -> path_le q p -> p = q.
Proof.
  unfold path_le, PurePath.ltb. intros Ha Hqp Hpq.
  destruct (decide (PurePath.cparts p = PurePath.cparts q)) as [E|N].
  - destruct p as [a ps], q as [b qs]. simpl in Ha. subst b.
    unfold PurePath.cparts in E. simpl in E.
    destruct a; [by subst|]. by injection E as ->.
  - destruct (list_ltb_total _ _ N); congruence.
Qed.

(** Two sorted arrangements of the same paths are the same list. *)
Lemma sorted_unique (a : string) (l1 l2 : list Path) :
  Forall (fun p => anchor p = a) l1 ->
  StronglySorted path_le l1 -> StronglySorted path_le l2 ->
  l1 ≡ₚ l2 -> l1 = l2.
Proof.
  revert l2. induction l1 as [|x l1 IH]; intros l2 Ha S1 S2 P.
  - by apply Permutation_nil in P.
  - destruct l2 as [|y l2].
    { symmetry in P. by apply Permutation_nil in P. }
    apply StronglySorted_inv in S1 as [S1 Hx].
    apply StronglySorted_inv in S2 as [S2 Hy].
    apply Forall_cons in Ha as [Hax Ha].
    rewrite Forall_forall in Hx, Hy, Ha.
    assert (x = y) as ->.
    { assert (x ∈ y :: l2) as Hin1 by (rewrite <- P; left).
      assert (y ∈ x :: l1) as Hin2 by (rewrite P; left).
      apply elem_of_cons in Hin1 as [->|Hin1]; [done|].
      apply elem_of_cons in Hin2 as [->|Hin2]; [done|].
      apply path_le_antisym.
      - rewrite Hax. symmetry. by apply Ha.
      - by apply Hx.
      - by apply Hy. }
    f_equal. apply IH; [by apply Forall_forall|done|done|].
    by apply Permutation_cons_inv in P.
Qed.

End Listing.

(** X10: the order in which the directory is listed does not matter.
    Two hosts whose listings hold the same entries, in whatever order,
    all with one anchor (as the children of one directory have), give
    [main] the same sources in the same order; the numbering of the
    intermediates and the order of the manifest therefore depend on the
    names of the files only. *)
Theorem X10_listing_order_irrelevant (host1 host2 : Host)
    (args : Namespace) (m : FS) (a : string)
    (Hperm : glob host1 m (root_of_args host1 args) (pattern args)
             ≡ₚ glob host2 m (root_of_args host2 args) (pattern args))
    (Hanc : Forall (fun p => anchor p = a)
              (glob host1 m (root_of_args host1 args) (pattern args))) :
  wavs_of_args host1 args m = wavs_of_args host2 args m /\
  forall workdir n,
    transcode_cmds workdir n (wavs_of_args host1 args m)
    = transcode_cmds workdir n (wavs_of_args host2 args m).
Proof.
  assert (wavs_of_args host1 args m = wavs_of_args host2 args m) as E.
  { unfold wavs_of_args. f_equal.
    apply (sorted_unique a).
    - by rewrite sorted_Permutation.
    - apply sorted_StronglySorted.
    - apply sorted_StronglySorted.
    - by rewrite !sorted_Permutation. }
  split; [done|]. intros workdir n. by rewrite E.
Qed.

Lemma X10_listing_order_irrelevant_witness :
  let host1 := Sample.stub Sample.listing "" 0 in
  let host2 := Sample.stub (rev Sample.listing) "" 0 in
  glob host1 Sample.album (root_of_args host1 Sample.args) "*.wav"
    <> glob host2 Sample.album (root_of_args host2 Sample.args) "*.wav" /\
  wavs_of_args host1 Sample.args Sample.album = Sample.tracks /\
  wavs_of_args host1 Sample.args Sample.album
  = wavs_of_args host2 Sample.args Sample.album.
Proof.
  split; [by vm_compute|]. split; [by vm_compute|].
  apply (X10_listing_order_irrelevant
           (Sample.stub Sample.listing "" 0)
           (Sample.stub (rev Sample.listing) "" 0)
           Sample.args Sample.album "/").
  - apply (Permutation_map (PurePath.joinpath (PurePath.of_string "/album"))
             (Permutation_rev Sample.listing)).
  - by vm_compute; repeat constructor.
Defined.
